(** * GitHub repository file discovery scripts: model and properties

    A shallow embedding of the four scripts under [scripts/]:

    - [1_fetchRandomFile.py]           (save a random file to disk),
    - [2_fetchRandomFileLink.py]       (print a link to a random file),
    - [3_fetchRandomFileFromSubDir.py] (random file of one subdirectory),
    - [4_csvLinks.py]                  (export every file to a CSV file).

    The remote API, the pseudo-random generator and the console and file
    system are made explicit: a script is a function from the answers of
    the remote end to its return value and the list of effects it performs,
    in program order. *)

From Stdlib Require Import List String Ascii Bool Arith Lia DecimalString.
Import ListNotations.
Open Scope string_scope.
Open Scope list_scope.

(** String concatenation is written [^]; [++] is kept for lists. *)
Infix "^" := String.append (at level 30, right associativity) : string_scope.

(* ================================================================= *)
(** ** Python string operations used by the scripts *)

Module PyStr.

Definition slash : ascii := "/"%char.

(** [s.lstrip('/')] *)
Fixpoint lstrip (s : string) : string :=
  match s with
  | String c r => if Ascii.eqb c slash then lstrip r else s
  | EmptyString => EmptyString
  end.

(** [s.rstrip('/')] *)
Fixpoint rstrip (s : string) : string :=
  match s with
  | EmptyString => EmptyString
  | String c r =>
      match rstrip r with
      | EmptyString => if Ascii.eqb c slash then EmptyString else String c EmptyString
      | r' => String c r'
      end
  end.

(** [s.strip('/')] *)
Definition strip (s : string) : string := rstrip (lstrip s).

(** [s.split(sep)] for a one-character separator: never the empty list,
    empty segments are kept. *)
Fixpoint split (sep : ascii) (s : string) : list string :=
  match s with
  | EmptyString => [EmptyString]
  | String c r =>
      if Ascii.eqb c sep then EmptyString :: split sep r
      else match split sep r with
           | h :: t => String c h :: t
           | [] => [String c EmptyString]
           end
  end.

(** [c in s] *)
Fixpoint contains (c : ascii) (s : string) : bool :=
  match s with
  | EmptyString => false
  | String d r => Ascii.eqb d c || contains c r
  end.

(** [s.partition]-like cut at the first character satisfying [p]:
    the part before it, and the rest starting at it. *)
Fixpoint break_at (p : ascii -> bool) (s : string) : string * string :=
  match s with
  | EmptyString => (EmptyString, EmptyString)
  | String c r =>
      if p c then (EmptyString, s)
      else let (a, b) := break_at p r in (String c a, b)
  end.

Definition is_empty (s : string) : bool :=
  match s with EmptyString => true | _ => false end.

Definition nonempty (s : string) : bool := negb (is_empty s).

Definition is_upper (c : ascii) : bool :=
  let n := nat_of_ascii c in Nat.leb 65 n && Nat.leb n 90.
Definition is_lower (c : ascii) : bool :=
  let n := nat_of_ascii c in Nat.leb 97 n && Nat.leb n 122.
Definition is_digit (c : ascii) : bool :=
  let n := nat_of_ascii c in Nat.leb 48 n && Nat.leb n 57.
Definition is_alpha (c : ascii) : bool := is_upper c || is_lower c.

Definition lower_char (c : ascii) : ascii :=
  if is_upper c then ascii_of_nat (nat_of_ascii c + 32) else c.

(** [s.lower()] on ASCII text *)
Fixpoint lower (s : string) : string :=
  match s with
  | EmptyString => EmptyString
  | String c r => String (lower_char c) (lower r)
  end.

Fixpoint forallb_str (p : ascii -> bool) (s : string) : bool :=
  match s with
  | EmptyString => true
  | String c r => p c && forallb_str p r
  end.

Definition starts_with_slash (s : string) : bool :=
  match s with String c _ => Ascii.eqb c slash | EmptyString => false end.

Fixpoint ends_with_slash (s : string) : bool :=
  match s with
  | EmptyString => false
  | String c EmptyString => Ascii.eqb c slash
  | String _ r => ends_with_slash r
  end.

End PyStr.

(* ================================================================= *)
(** ** [urllib.parse.urlparse(url).path]

    The scripts only read the [path] attribute of the parse result.  The
    model follows [urlsplit]/[urlparse] of the Python library on ASCII
    text: an optional scheme up to the first [:], a network location
    introduced by [//] and ended by the first of [/ ? #], then the
    fragment, the query and the parameters of the last segment are cut
    off.  The library's preliminary removal of control characters and its
    rejection of ill-formed bracketed hosts are left out. *)

Module UrlParse.
Import PyStr.

Definition scheme_char (c : ascii) : bool :=
  is_alpha c || is_digit c
  || Ascii.eqb c "+"%char || Ascii.eqb c "-"%char || Ascii.eqb c "."%char.

Definition uses_params : list string :=
  [""; "ftp"; "hdl"; "prospero"; "http"; "imap"; "https"; "shttp"; "rtsp";
   "rtspu"; "sip"; "sips"; "mms"; "sftp"; "tel"].

(** The scheme (lower-cased) and what follows its colon. *)
Definition split_scheme (url : string) : string * string :=
  match break_at (Ascii.eqb ":"%char) url with
  | (String c0 pre, String _ rest) =>
      if is_alpha c0 && forallb_str scheme_char (String c0 pre)
      then (lower (String c0 pre), rest)
      else (EmptyString, url)
  | _ => (EmptyString, url)
  end.

Definition netloc_end (c : ascii) : bool :=
  Ascii.eqb c "/"%char || Ascii.eqb c "?"%char || Ascii.eqb c "#"%char.

(** [_splitnetloc(url, 2)] when [url] starts with [//]. *)
Definition split_netloc (url : string) : string * string :=
  match url with
  | String "/" (String "/" r) => break_at netloc_end r
  | _ => (EmptyString, url)
  end.

(** [_splitparams]: cut at the first [;] of the last segment. *)
Fixpoint split_params (url : string) : string :=
  match url with
  | EmptyString => EmptyString
  | String c r =>
      if Ascii.eqb c ";"%char && negb (contains slash r) then EmptyString
      else String c (split_params r)
  end.

Definition path (url : string) : string :=
  let (scheme, url1) := split_scheme url in
  let (_, url2) := split_netloc url1 in
  let url3 := fst (break_at (Ascii.eqb "#"%char) url2) in
  let url4 := fst (break_at (Ascii.eqb "?"%char) url3) in
  if existsb (String.eqb scheme) uses_params then split_params url4 else url4.

End UrlParse.


(* ================================================================= *)
(** ** The outside world: effects, API answers, exceptions *)

(** What a script does to the outside, in program order. *)
Inductive event : Type :=
| Get (url : string)                    (* requests.get(url) *)
| Print (line : string)                 (* print(line) *)
| RandBelow (n : nat)                   (* random.choice draws an index below n *)
| MakeDirs (dir : string)               (* os.makedirs(dir, exist_ok=True) *)
| OpenW (file : string)                 (* open(file, 'w', ...) *)
| FWrite (file : string) (data : string). (* a write to the open file *)

(** A filesystem write is any of the last three. *)
Definition is_fs_event (e : event) : bool :=
  match e with
  | MakeDirs _ | OpenW _ | FWrite _ _ => true
  | _ => false
  end.

(** Requests and console output only. *)
Definition quiet (e : event) : bool :=
  match e with Get _ | Print _ => true | _ => false end.

(** The URLs requested, in order. *)
Fixpoint requests (tr : list event) : list string :=
  match tr with
  | [] => []
  | Get u :: r => u :: requests r
  | _ :: r => requests r
  end.

(** A Python call either returns or raises; [e] is the text of the
    exception as the scripts print it. *)
Inductive result (A : Type) : Type :=
| Ok (a : A)
| Raise (e : string).
Arguments Ok {A} a.
Arguments Raise {A} e.

(** One object of a listing answer, with the keys the scripts read.  Every
    object of a listing is taken to carry them, as the API documents; an
    answer that is not a list of such objects counts as a failed listing. *)
Record Item : Type := mkItem {
  type_ : string;
  name : string;
  path : string;
  html_url : string;
  download_url : string
}.

(** The remote end.  [json_at u] is the outcome of
    [r = requests.get(u); r.raise_for_status(); r.json()]: a listing, or
    the exception raised by any of the three (network error, non-2xx
    status, body that is not JSON).  [text_at u] is the same with
    [r.text] in place of [r.json()]. *)
Record remote : Type := mkRemote {
  json_at : string -> result (list Item);
  text_at : string -> result string
}.

(** [random.choice(seq)], given the generator's [_randbelow]. *)
Definition random_choice {A : Type} (randbelow : nat -> nat) (seq : list A)
  : result A :=
  match seq with
  | [] => Raise "Cannot choose from an empty sequence"
  | _ :: _ =>
      match nth_error seq (randbelow (List.length seq)) with
      | Some x => Ok x
      | None => Raise "list index out of range"
      end
  end.

(** The generator whose next draw is [i]. *)
Definition drawing (i : nat) : nat -> nat := fun _ => i.

(** [os.path.join(a, b)] on POSIX. *)
Definition path_join (a b : string) : string :=
  if PyStr.starts_with_slash b then b
  else if PyStr.is_empty a || PyStr.ends_with_slash a then a ^ b
  else a ^ "/" ^ b.

(* ================================================================= *)
(** ** URL Parser (the first lines of every script) *)

Definition path_parts (repo_url : string) : list string :=
  PyStr.split PyStr.slash (PyStr.strip (UrlParse.path repo_url)).

(** [username, repo_name], or the diagnostic when there are fewer than two
    parts. *)
Definition parse_repo_url (repo_url : string)
  : option (string * string) * list event :=
  let parts := path_parts repo_url in
  if Nat.ltb (List.length parts) 2 then
    (None, [Print ("Invalid GitHub URL format: " ^ repo_url)])
  else
    (Some (nth 0 parts "", nth 1 parts ""), []).

(* ================================================================= *)
(** ** Bounded walker of [1_fetchRandomFile.py] and
       [2_fetchRandomFileLink.py] *)

Section Walker.
Variable w : remote.

(** [for item in contents: ...] filling [all_files] and [directories]. *)
Fixpoint classify (contents : list Item)
         (all_files : list Item) (directories : list string)
  : list Item * list string :=
  match contents with
  | [] => (all_files, directories)
  | item :: rest =>
      if type_ item =? "file" then
        classify rest (all_files ++ [item]) directories
      else if type_ item =? "dir" then
        classify rest all_files (directories ++ [path item])
      else classify rest all_files directories
  end.

(** [for directory in directories: ...], one round of the [while]. *)
Fixpoint visit_directories (api_url : string) (directories : list string)
         (all_files : list Item) (new_directories : list string)
  : list Item * list string * list event :=
  match directories with
  | [] => (all_files, new_directories, [])
  | directory :: rest =>
      let dir_url := api_url ^ "/" ^ directory in
      match json_at w dir_url with
      | Ok dir_contents =>
          let (fs, nd) := classify dir_contents all_files new_directories in
          let '(fs', nd', tr) := visit_directories api_url rest fs nd in
          (fs', nd', Get dir_url :: tr)
      | Raise e =>
          let '(fs', nd', tr) :=
            visit_directories api_url rest all_files new_directories in
          (fs', nd',
           Get dir_url
           :: Print ("Error accessing directory " ^ directory ^ ": " ^ e)
           :: tr)
      end
  end.

(** [while directories and current_depth < max_depth], with
    [remaining = max_depth - current_depth]. *)
Fixpoint descend (remaining : nat) (api_url : string)
         (directories : list string) (all_files : list Item)
  : list Item * list event :=
  match remaining, directories with
  | S k, _ :: _ =>
      let '(fs, nd, tr) := visit_directories api_url directories all_files [] in
      let (fs', tr') := descend k api_url nd fs in
      (fs', tr ++ tr')
  | _, _ => (all_files, [])
  end.

Definition max_depth : nat := 2.

(** The body of the [try] up to the end of the [while]: the files found,
    or the exception of the first listing. *)
Definition discover (api_url : string) : result (list Item) * list event :=
  match json_at w api_url with
  | Raise e => (Raise e, [Get api_url])
  | Ok contents =>
      let (all_files, directories) := classify contents [] [] in
      let (all_files', tr) := descend max_depth api_url directories all_files in
      (Ok all_files', Get api_url :: tr)
  end.

End Walker.

(* ================================================================= *)
(** ** The three random-file flows *)

Section RandomFlows.
Variable w : remote.
Variable randbelow : nat -> nat.

(** *** [2_fetchRandomFileLink.py] *)

Definition link_api_url (username repo_name : string) : string :=
  "https://api.github.com/repos/" ^ username ^ "/" ^ repo_name ^ "/contents".

(** From [if not all_files] to the [return]. *)
Definition report_link (no_files : string) (all_files : list Item)
  : option string * list event :=
  match all_files with
  | [] => (None, [Print no_files])
  | _ :: _ =>
      match random_choice randbelow all_files with
      | Raise e =>
          (None, [RandBelow (List.length all_files);
                  Print ("Error fetching random file link: " ^ e)])
      | Ok random_file =>
          let file_name := name random_file in
          let html_url := html_url random_file in
          (Some html_url,
           [RandBelow (List.length all_files);
            Print ("Random file selected: " ^ file_name);
            Print ("File URL: " ^ html_url)])
      end
  end.

Definition get_random_file_link (repo_url : string)
  : option string * list event :=
  match parse_repo_url repo_url with
  | (None, tr) => (None, tr)
  | (Some (username, repo_name), tr0) =>
      let api_url := link_api_url username repo_name in
      match discover w api_url with
      | (Raise e, tr) =>
          (None, tr0 ++ tr ++ [Print ("Error fetching random file link: " ^ e)])
      | (Ok all_files, tr) =>
          let (r, tr') :=
            report_link "No files found in the repository." all_files in
          (r, tr0 ++ tr ++ tr')
      end
  end.

(** The entry point: [if file_link:] holds for a non-empty string. *)
Definition main_link : list event :=
  let repo_url := "https://github.com/krutikpatel/tech-revision-notes/tree/main" in
  let (file_link, tr) := get_random_file_link repo_url in
  match file_link with
  | Some (String c l) => tr ++ [Print ("Random file link: " ^ String c l)]
  | _ => tr ++ [Print "Failed to fetch a random file link."]
  end.

(** *** [3_fetchRandomFileFromSubDir.py] *)

Fixpoint files_only (contents : list Item) (all_files : list Item)
  : list Item :=
  match contents with
  | [] => all_files
  | item :: rest =>
      if type_ item =? "file" then files_only rest (all_files ++ [item])
      else files_only rest all_files
  end.

Definition get_random_file_link_from_subdir (repo_url subdir_path : string)
  : option string * list event :=
  match parse_repo_url repo_url with
  | (None, tr) => (None, tr)
  | (Some (username, repo_name), tr0) =>
      let api_url :=
        "https://api.github.com/repos/" ^ username ^ "/" ^ repo_name
        ^ "/contents/" ^ subdir_path in
      match json_at w api_url with
      | Raise e =>
          (None, tr0 ++ [Get api_url;
                         Print ("Error fetching random file link: " ^ e)])
      | Ok contents =>
          let all_files := files_only contents [] in
          let (r, tr') :=
            report_link ("No files found in the subdirectory: " ^ subdir_path)
                        all_files in
          (r, tr0 ++ Get api_url :: tr')
      end
  end.

Definition main_subdir : list event :=
  let repo_url := "https://github.com/krutikpatel/tech-revision-notes/tree/main" in
  let subdir_path := "SpringFramework" in
  let (file_link, tr) := get_random_file_link_from_subdir repo_url subdir_path in
  match file_link with
  | Some (String c l) => tr ++ [Print ("Random file link: " ^ String c l)]
  | _ => tr ++ [Print ("Failed to fetch a random file link from subdirectory: "
                       ^ subdir_path)]
  end.

(** *** [1_fetchRandomFile.py] *)

(** The f-string of line 29 has no placeholder: [username] and
    [repo_name] are computed and not used. *)
Definition save_api_url (username repo_name : string) : string :=
  "https://github.com/krutikpatel/tech-revision-notes/tree/main/SpringFramework".

Definition fetch_random_file (repo_url : string)
  : (option string * option string) * list event :=
  match parse_repo_url repo_url with
  | (None, tr) => ((None, None), tr)
  | (Some (username, repo_name), tr0) =>
      let api_url := save_api_url username repo_name in
      match discover w api_url with
      | (Raise e, tr) =>
          ((None, None),
           tr0 ++ tr ++ [Print ("Error fetching random file: " ^ e)])
      | (Ok [], tr) =>
          ((None, None),
           tr0 ++ tr ++ [Print "No files found in the repository."])
      | (Ok all_files, tr) =>
          match random_choice randbelow all_files with
          | Raise e =>
              ((None, None),
               tr0 ++ tr ++ [RandBelow (List.length all_files);
                             Print ("Error fetching random file: " ^ e)])
          | Ok random_file =>
              let file_name := name random_file in
              let file_url := download_url random_file in
              match text_at w file_url with
              | Raise e =>
                  ((None, None),
                   tr0 ++ tr ++ [RandBelow (List.length all_files); Get file_url;
                                 Print ("Error fetching random file: " ^ e)])
              | Ok file_content =>
                  ((Some file_name, Some file_content),
                   tr0 ++ tr ++ [RandBelow (List.length all_files); Get file_url;
                                 Print ("Successfully downloaded: " ^ file_name)])
              end
          end
      end
  end.

Definition save_file (file_name file_content output_dir : string)
  : string * list event :=
  let file_path := path_join output_dir file_name in
  (file_path,
   [MakeDirs output_dir; OpenW file_path; FWrite file_path file_content]).

(** The entry point: [if file_name and file_content:] holds when both
    are strings and neither is empty. *)
Definition main_save : list event :=
  let repo_url :=
    "https://github.com/krutikpatel/tech-revision-notes/tree/main/SpringFramework" in
  let '((file_name, file_content), tr) := fetch_random_file repo_url in
  match file_name, file_content with
  | Some (String a n), Some (String b c) =>
      let (file_path, tr') :=
        save_file (String a n) (String b c) "downloaded_files" in
      tr ++ tr' ++ [Print ("File saved to: " ^ file_path)]
  | _, _ => tr ++ [Print "Failed to fetch a random file."]
  end.

End RandomFlows.

(* ================================================================= *)
(** ** Python's [csv] module, [excel] dialect

    [csv.DictWriter(csvfile, fieldnames)] with the default dialect:
    delimiter [,], quote character [QUOTE], line terminator CR LF, minimal
    quoting with doubled quote characters.  The reader is the automaton of
    [csv.reader] for the same dialect (non-strict), run over the text of a
    file opened with [newline=''], a line ending after LF, CR LF or a lone
    CR. *)

Module Csv.

Definition delimiter : ascii := ","%char.
Definition quotechar : ascii := ascii_of_nat 34.
Definition CR : ascii := ascii_of_nat 13.
Definition LF : ascii := ascii_of_nat 10.
Definition lineterminator : string := String CR (String LF EmptyString).

Definition is_eol (c : ascii) : bool := Ascii.eqb c CR || Ascii.eqb c LF.

(** The characters that force a field into quotes. *)
Definition special (c : ascii) : bool :=
  Ascii.eqb c delimiter || Ascii.eqb c quotechar || is_eol c.

Fixpoint has_special (s : string) : bool :=
  match s with
  | EmptyString => false
  | String c r => special c || has_special r
  end.

Fixpoint double_quotes (s : string) : string :=
  match s with
  | EmptyString => EmptyString
  | String c r =>
      if Ascii.eqb c quotechar
      then String quotechar (String quotechar (double_quotes r))
      else String c (double_quotes r)
  end.

Definition write_field (s : string) : string :=
  if has_special s
  then String quotechar (double_quotes s ^ String quotechar EmptyString)
  else s.

Fixpoint join_fields (fields : list string) : string :=
  match fields with
  | [] => EmptyString
  | [f] => write_field f
  | f :: rest => write_field f ^ String delimiter (join_fields rest)
  end.

(** [writer.writerow(fields)]: the text handed to [csvfile.write].  A
    record made of one empty field is written as two quote characters. *)
Definition writerow (fields : list string) : string :=
  match fields with
  | [EmptyString] => String quotechar (String quotechar lineterminator)
  | _ => join_fields fields ^ lineterminator
  end.

Inductive rstate : Type :=
| StartRecord | StartField | InField
| InQuotedField | QuoteInQuotedField | AfterCR.

Inductive action : Type :=
| AddChar (st : rstate)      (* the character joins the current field *)
| Skip (st : rstate)         (* the character is dropped *)
| SaveField (st : rstate)    (* the current field joins the record *)
| EndRecord (st : rstate)    (* the field is saved, the record returned *)
| EmptyRecord (st : rstate). (* a blank line: an empty record *)

Definition after_eol (c : ascii) : rstate :=
  if Ascii.eqb c CR then AfterCR else StartRecord.

Definition step_start_field (c : ascii) : action :=
  if is_eol c then EndRecord (after_eol c)
  else if Ascii.eqb c quotechar then Skip InQuotedField
  else if Ascii.eqb c delimiter then SaveField StartField
  else AddChar InField.

Definition step_start_record (c : ascii) : action :=
  if is_eol c then EmptyRecord (after_eol c) else step_start_field c.

Definition step (st : rstate) (c : ascii) : action :=
  match st with
  | StartRecord => step_start_record c
  | StartField => step_start_field c
  | InField =>
      if is_eol c then EndRecord (after_eol c)
      else if Ascii.eqb c delimiter then SaveField StartField
      else AddChar InField
  | InQuotedField =>
      if Ascii.eqb c quotechar then Skip QuoteInQuotedField
      else AddChar InQuotedField
  | QuoteInQuotedField =>
      if Ascii.eqb c quotechar then AddChar InQuotedField
      else if Ascii.eqb c delimiter then SaveField StartField
      else if is_eol c then EndRecord (after_eol c)
      else AddChar InField
  | AfterCR =>
      if Ascii.eqb c LF then Skip StartRecord else step_start_record c
  end.

Definition add (field : string) (c : ascii) : string :=
  field ^ String c EmptyString.

(** The records read from [input], the reader being in state [st] with
    [row] and [field] under construction. *)
Fixpoint reader (st : rstate) (row : list string) (field : string)
         (input : string) : list (list string) :=
  match input with
  | EmptyString =>
      match st with
      | StartRecord | AfterCR => []
      | _ => [row ++ [field]]
      end
  | String c rest =>
      match step st c with
      | AddChar st' => reader st' row (add field c) rest
      | Skip st' => reader st' row field rest
      | SaveField st' => reader st' (row ++ [field]) EmptyString rest
      | EndRecord st' => (row ++ [field]) :: reader st' [] EmptyString rest
      | EmptyRecord st' => [] :: reader st' [] EmptyString rest
      end
  end.

Definition read (text : string) : list (list string) :=
  reader StartRecord [] EmptyString text.

(** The states in which a record or a field starts. *)
Definition at_start (st : rstate) : bool :=
  match st with
  | StartRecord | StartField => true
  | _ => false
  end.

(** The text of a CSV file: its records one after the other. *)
Fixpoint csv_text (rows : list (list string)) : string :=
  match rows with
  | [] => EmptyString
  | r :: rows' => writerow r ^ csv_text rows'
  end.

End Csv.

(** The text of [file] after the effects [tr], [cur] being its text before
    ([None]: not opened by the script). *)
Fixpoint file_text (file : string) (tr : list event) (cur : option string)
  : option string :=
  match tr with
  | [] => cur
  | OpenW f :: r =>
      file_text file r (if f =? file then Some EmptyString else cur)
  | FWrite f d :: r =>
      file_text file r
        (if f =? file then option_map (fun s => s ^ d) cur else cur)
  | _ :: r => file_text file r cur
  end.

(* ================================================================= *)
(** ** [4_csvLinks.py]: the exhaustive walker and the CSV exporter *)

(** One dictionary appended to [all_files]. *)
Record Row : Type := mkRow {
  articleName : string;
  articleUrl : string
}.

Section ExportFlow.
Variable w : remote.

Definition export_api_url (username repo_name dir_path : string) : string :=
  "https://api.github.com/repos/" ^ username ^ "/" ^ repo_name
  ^ "/contents/" ^ dir_path.

(** The child path of line 57. *)
Definition subdirectory_path (dir_path : string) (item : Item) : string :=
  if PyStr.nonempty dir_path then dir_path ^ "/" ^ name item else name item.

(** [for item in contents: ...] of [get_contents_recursive(dir_path)],
    [recurse] being the recursive call.  [all_files] is the list of the
    enclosing function, threaded through.  [None]: out of fuel. *)
Fixpoint for_items
         (recurse : string -> list Row -> option (bool * list Row * list event))
         (dir_path : string) (contents : list Item) (all_files : list Row)
  : option (list Row * list event) :=
  match contents with
  | [] => Some (all_files, [])
  | item :: rest =>
      if type_ item =? "file" then
        let articleName := dir_path ^ "/" ^ name item in
        let articleUrl := html_url item in
        for_items recurse dir_path rest
                  (all_files ++ [mkRow articleName articleUrl])
      else if type_ item =? "dir" then
        match recurse (subdirectory_path dir_path item) all_files with
        | None => None
        | Some (_, fs, tr) =>
            match for_items recurse dir_path rest fs with
            | None => None
            | Some (fs', tr') => Some (fs', tr ++ tr')
            end
        end
      else for_items recurse dir_path rest all_files
  end.

(** The recursion of the script is not bounded by the code: [fuel] bounds
    the nesting of calls, and [None] is returned when it runs out. *)
Fixpoint get_contents_recursive (fuel : nat) (username repo_name : string)
         (dir_path : string) (all_files : list Row)
  : option (bool * list Row * list event) :=
  match fuel with
  | O => None
  | S fuel' =>
      let api_url := export_api_url username repo_name dir_path in
      match json_at w api_url with
      | Raise e =>
          Some (false, all_files,
                [Get api_url;
                 Print ("Error fetching files from " ^ dir_path ^ ": " ^ e)])
      | Ok contents =>
          match for_items (get_contents_recursive fuel' username repo_name)
                          dir_path contents all_files with
          | None => None
          | Some (fs, tr) => Some (true, fs, Get api_url :: tr)
          end
      end
  end.

Definition fieldnames : list string := ["articleName"; "articleUrl"].

(** [writer.writerow(file)]: the values in the order of [fieldnames]. *)
Definition dict_row (file : Row) : list string :=
  [articleName file; articleUrl file].

Definition decimal (n : nat) : string :=
  NilZero.string_of_uint (Nat.to_uint n).

(** From [with open(output_csv, ...)] to the last [print]. *)
Definition write_csv (output_csv : string) (all_files : list Row)
  : list event :=
  OpenW output_csv
  :: FWrite output_csv (Csv.writerow fieldnames)
  :: map (fun file => FWrite output_csv (Csv.writerow (dict_row file))) all_files
  ++ [Print ("Successfully wrote " ^ decimal (List.length all_files)
             ^ " files to " ^ output_csv)].

Definition get_files_from_subdir (fuel : nat)
           (repo_url subdir_path output_csv : string)
  : option (bool * list event) :=
  match parse_repo_url repo_url with
  | (None, tr) => Some (false, tr)
  | (Some (username, repo_name), tr0) =>
      match get_contents_recursive fuel username repo_name subdir_path [] with
      | None => None
      | Some (success, [], tr) =>
          Some (false,
                tr0 ++ tr
                ++ [Print ("No files found in the subdirectory tree starting from: "
                           ^ subdir_path)])
      | Some (success, all_files, tr) =>
          Some (true, tr0 ++ tr ++ write_csv output_csv all_files)
      end
  end.

Definition main_export (fuel : nat) : option (list event) :=
  let repo_url := "https://github.com/krutikpatel/tech-revision-notes/tree/main" in
  let subdir_path := "SpringFramework" in
  let output_csv := "github_files.csv" in
  match get_files_from_subdir fuel repo_url subdir_path output_csv with
  | None => None
  | Some (true, tr) =>
      Some (tr ++ [Print ("CSV file created successfully: " ^ output_csv)])
  | Some (false, tr) =>
      Some (tr ++ [Print ("Failed to create CSV file from subdirectory tree: "
                          ^ subdir_path)])
  end.

End ExportFlow.

(* ================================================================= *)
(** ** What the specification says of the URL Parser *)

(** Leading empty segments removed. *)
Fixpoint drop_empty (segs : list string) : list string :=
  match segs with
  | EmptyString :: r => drop_empty r
  | _ => segs
  end.

(** The non-empty segments of the path component of [repo_url]. *)
Definition nonempty_segments (repo_url : string) : list string :=
  filter PyStr.nonempty (PyStr.split PyStr.slash (UrlParse.path repo_url)).

(** Follows the specification's words: owner and repository are the first
    two non-empty segments; null when fewer than two are present. *)
Definition spec_owner_repo (repo_url : string) : option (string * string) :=
  match nonempty_segments repo_url with
  | owner :: repo :: _ => Some (owner, repo)
  | _ => None
  end.

(** The first non-empty segment and the segment that follows it. *)
Definition owner_and_next (repo_url : string) : string * string :=
  let segs := drop_empty (PyStr.split PyStr.slash (UrlParse.path repo_url)) in
  (nth 0 segs "", nth 1 segs "").

(* ================================================================= *)
(** ** Reading the walks: levels, reachable directories, pruned remotes *)

Definition is_file (item : Item) : bool := type_ item =? "file".
Definition is_dir (item : Item) : bool := type_ item =? "dir".

Definition files_in (contents : list Item) : list Item := filter is_file contents.

(** The [path] values the API gives for the directories of a listing. *)
Definition dirs_in (contents : list Item) : list string :=
  map path (filter is_dir contents).

Definition fails (w : remote) (url : string) : bool :=
  match json_at w url with Raise _ => true | Ok _ => false end.

(** The answer to a listing request, a failed one counting for nothing. *)
Definition listing (w : remote) (url : string) : list Item :=
  match json_at w url with Ok contents => contents | Raise _ => [] end.

Section Levels.
Variable w : remote.
Variable api_url : string.

Definition dir_url (directory : string) : string := api_url ^ "/" ^ directory.

(** The directories found by listing [directories]: one level further
    down. *)
Definition below (directories : list string) : list string :=
  flat_map (fun d => dirs_in (listing w (dir_url d))) directories.

Definition files_of (directories : list string) : list Item :=
  flat_map (fun d => files_in (listing w (dir_url d))) directories.

(** The directories listed by [n] rounds starting from [directories], and
    the files these listings show. *)
Fixpoint walk_dirs (n : nat) (directories : list string) : list string :=
  match n with
  | O => []
  | S k => directories ++ walk_dirs k (below directories)
  end.

Fixpoint walk_files (n : nat) (directories : list string) : list Item :=
  match n with
  | O => []
  | S k => files_of directories ++ walk_files k (below directories)
  end.

(** What [discover] finds and asks, with no reference to its loops. *)
Definition found : result (list Item) :=
  match json_at w api_url with
  | Raise e => Raise e
  | Ok contents =>
      Ok (files_in contents ++ walk_files max_depth (dirs_in contents))
  end.

(** The directories [discover] lists after the start. *)
Definition listed : list string :=
  walk_dirs max_depth (dirs_in (listing w api_url)).

(** The listing of directory [d] succeeds. *)
Definition alive (d : string) : bool := negb (fails w (dir_url d)).

(** Entries kept when the directories whose own listing fails are taken
    out of every listing. *)
Definition keep_link (item : Item) : bool :=
  negb (is_dir item && fails w (dir_url (path item))).

Definition prune_link : remote :=
  mkRemote
    (fun url =>
       match json_at w url with
       | Ok contents => Ok (filter keep_link contents)
       | Raise e => Raise e
       end)
    (text_at w).

End Levels.

Section Reach.
Variable w : remote.
Variables username repo_name : string.

(** [reach p q k]: the export walk started at [p] comes to directory [q]
    after descending [k] times. *)
Inductive reach : string -> string -> nat -> Prop :=
| reach_here (p : string) : reach p p 0
| reach_down (p : string) (contents : list Item) (item : Item)
             (q : string) (k : nat) :
    json_at w (export_api_url username repo_name p) = Ok contents ->
    In item contents ->
    is_file item = false ->
    is_dir item = true ->
    reach (subdirectory_path p item) q k ->
    reach p q (S k).

(** The dictionary appended for the file [item] listed in [dir_path]. *)
Definition row_of (dir_path : string) (item : Item) : Row :=
  mkRow (dir_path ^ "/" ^ name item) (html_url item).

(** [row] stands for a file shown by the listing of directory [q]. *)
Definition row_at (q : string) (row : Row) : Prop :=
  exists contents item,
    json_at w (export_api_url username repo_name q) = Ok contents
    /\ In item contents /\ is_file item = true /\ row = row_of q item.

(** What one entry of the listing of [p] contributes: its own row, or the
    rows and requests of the directories reached through it. *)
Definition from_item (p : string) (item : Item) (row : Row) : Prop :=
  (is_file item = true /\ row = row_of p item)
  \/ (is_file item = false /\ is_dir item = true
      /\ exists q k, reach (subdirectory_path p item) q k /\ row_at q row).

Definition req_item (p : string) (item : Item) (url : string) : Prop :=
  is_file item = false /\ is_dir item = true
  /\ exists q k, reach (subdirectory_path p item) q k
                 /\ url = export_api_url username repo_name q.

Definition items_ok (p : string) (items : list Item)
           (new : list Row) (tr : list event) : Prop :=
  (forall row, In row new <-> exists item, In item items /\ from_item p item row)
  /\ (forall url, In url (requests tr)
                  <-> exists item, In item items /\ req_item p item url)
  /\ (forall item q k e,
         In item items -> is_file item = false -> is_dir item = true ->
         reach (subdirectory_path p item) q k ->
         json_at w (export_api_url username repo_name q) = Raise e ->
         In (Print ("Error fetching files from " ^ q ^ ": " ^ e)) tr)
  /\ existsb is_fs_event tr = false.

(** The rows and requests of a finished walk from [p] are those of the
    directories reachable from [p]. *)
Definition walk_ok (p : string) (new : list Row) (tr : list event) : Prop :=
  (forall row, In row new <-> exists q k, reach p q k /\ row_at q row)
  /\ (forall url, In url (requests tr)
                  <-> exists q k, reach p q k
                                  /\ url = export_api_url username repo_name q)
  /\ (forall q k e,
         reach p q k ->
         json_at w (export_api_url username repo_name q) = Raise e ->
         In (Print ("Error fetching files from " ^ q ^ ": " ^ e)) tr)
  /\ existsb is_fs_event tr = false.

(** No directory lies more than [n] levels below [p]. *)
Fixpoint fits (n : nat) (p : string) : bool :=
  match json_at w (export_api_url username repo_name p) with
  | Raise _ => true
  | Ok contents =>
      forallb
        (fun item =>
           if is_file item then true
           else if is_dir item then
             match n with
             | O => false
             | S k => fits k (subdirectory_path p item)
             end
           else true)
        contents
  end.

(** [url] without the prefix [pre], when it starts with it. *)
Fixpoint strip_prefix (pre url : string) : option string :=
  match pre, url with
  | EmptyString, _ => Some url
  | String a pre', String b url' =>
      if Ascii.eqb a b then strip_prefix pre' url' else None
  | String _ _, EmptyString => None
  end.

Definition keep_export (dir_path : string) (item : Item) : bool :=
  negb (negb (is_file item) && is_dir item
        && fails w (export_api_url username repo_name
                                   (subdirectory_path dir_path item))).

(** The remote with, in the listing of every directory, the directories
    whose own listing fails taken out. *)
Definition prune_export : remote :=
  mkRemote
    (fun url =>
       match json_at w url with
       | Raise e => Raise e
       | Ok contents =>
           match strip_prefix (export_api_url username repo_name "") url with
           | Some dir_path => Ok (filter (keep_export dir_path) contents)
           | None => Ok contents
           end
       end)
    (text_at w).

End Reach.

(* ================================================================= *)
(** ** Small remotes, for running the scripts on concrete answers *)

Module Sample.

Definition file_item (n p : string) : Item :=
  mkItem "file" n p
         ("https://github.com/alice/proj/blob/main/" ^ p)
         ("https://raw.githubusercontent.com/alice/proj/main/" ^ p).

Definition dir_item (n p : string) : Item :=
  mkItem "dir" n p ("https://github.com/alice/proj/tree/main/" ^ p) "".

(** A remote that knows the listed URLs and answers 404 elsewhere. *)
Fixpoint lookup {A : Type} (table : list (string * A)) (url : string)
  : result A :=
  match table with
  | [] => Raise ("404 Client Error: Not Found for url: " ^ url)
  | (u, a) :: t => if u =? url then Ok a else lookup t url
  end.

Definition serve (listings : list (string * list Item))
           (texts : list (string * string)) : remote :=
  mkRemote (lookup listings) (lookup texts).

Definition repo_url : string := "https://github.com/alice/proj".
Definition api : string := "https://api.github.com/repos/alice/proj/contents".
Definition page : string :=
  "https://github.com/krutikpatel/tech-revision-notes/tree/main/SpringFramework".

Definition draws (i : nat) : nat -> nat := drawing i.

(** A listing whose directory entry [b] of [a] carries a [path] that is
    not [a/b]. *)
Definition odd_paths : remote :=
  serve [(api, [dir_item "a" "a"]);
         (api ^ "/a", [dir_item "b" "zzz"]);
         (api ^ "/zzz", [file_item "f.md" "zzz/f.md"])]
        [].

(** [broken] is listed at the root but its own listing fails. *)
Definition one_broken : remote :=
  serve [(api, [file_item "README.md" "README.md";
                dir_item "broken" "broken";
                dir_item "docs" "docs"]);
         (api ^ "/docs", [file_item "guide.md" "docs/guide.md"]);
         (api ^ "/", [file_item "README.md" "README.md";
                      dir_item "broken" "broken";
                      dir_item "docs" "docs"])]
        [].

(** Four levels of directories below the root, a file at the bottom. *)
Definition deep : remote :=
  serve [(api, [dir_item "l1" "l1"]);
         (api ^ "/", [file_item "top.md" "top.md"; dir_item "l1" "l1"]);
         (api ^ "/l1", [dir_item "l2" "l1/l2"]);
         (api ^ "/l1/l2", [dir_item "l3" "l1/l2/l3";
                           file_item "two.md" "l1/l2/two.md"]);
         (api ^ "/l1/l2/l3", [dir_item "l4" "l1/l2/l3/l4";
                              file_item "three.md" "l1/l2/l3/three.md"]);
         (api ^ "/l1/l2/l3/l4", [file_item "four.md" "l1/l2/l3/l4/four.md"])]
        [].

(** The page of the save flow answering with one file of empty text. *)
Definition empty_body : remote :=
  serve [(page, [file_item "empty.txt" "empty.txt"])]
        [("https://raw.githubusercontent.com/alice/proj/main/empty.txt", "")].

(** Every listing is empty. *)
Definition nothing : remote :=
  mkRemote (fun _ => Ok []) (fun _ => Raise "404").

End Sample.

(* ================================================================= *)
(** ** Further readings: character classes, known entry types, effects *)

(** No character of [s] is one of [chars]. *)
Definition free_of (chars : string) (s : string) : bool :=
  PyStr.forallb_str (fun c => negb (PyStr.contains c chars)) s.

(** The characters that end or cut the path component of a URL. *)
Definition url_marks : string := "/?#;".

(** An entry the walkers act on: a file or a directory. *)
Definition known (item : Item) : bool := is_file item || is_dir item.

(** The remote without the entries of other types (symbolic links,
    submodules) in its listings. *)
Definition only_known (w : remote) : remote :=
  mkRemote
    (fun url =>
       match json_at w url with
       | Ok contents => Ok (filter known contents)
       | Raise e => Raise e
       end)
    (text_at w).

Definition is_open (e : event) : bool :=
  match e with OpenW _ => true | _ => false end.

(** The address every script is documented with. *)
Definition github_url (owner repo suffix : string) : string :=
  "https://github.com/" ^ owner ^ "/" ^ repo ^ suffix.

Module MoreSamples.

(** The page of the save flow answering with one file of some text. *)
Definition with_body : remote :=
  Sample.serve
    [(Sample.page, [Sample.file_item "notes.md" "notes.md"])]
    [("https://raw.githubusercontent.com/alice/proj/main/notes.md", "# Notes")].

(** One directory holding two files, a link and a subdirectory. *)
Definition mixed : remote :=
  Sample.serve
    [(Sample.api, [Sample.file_item "a.md" "a.md";
                   mkItem "symlink" "latest" "latest" "" "";
                   Sample.dir_item "sub" "sub";
                   Sample.file_item "b.md" "b.md"]);
     (Sample.api ^ "/sub", [Sample.file_item "c.md" "sub/c.md"]);
     (Sample.api ^ "/docs", [Sample.file_item "a.md" "docs/a.md";
                             Sample.file_item "b.md" "docs/b.md"])]
    [].

End MoreSamples.

(* ================================================================= *)
(** * Properties *)

(** ** Strings *)

Section StringFacts.
Import PyStr.

Lemma split_not_nil (sep : ascii) (s : string) : split sep s <> [].
Proof.
  destruct s as [|c r]; simpl; [discriminate|].
  destruct (Ascii.eqb c sep); [discriminate|].
  destruct (split sep r); discriminate.
Qed.

Lemma split_cons (sep : ascii) (s : string) :
  exists h t, split sep s = h :: t.
Proof.
  destruct (split sep s) as [|h t] eqn:E.
  - now apply split_not_nil in E.
  - now exists h, t.
Qed.

(** Each leading slash is an empty leading segment. *)
Lemma split_lstrip (s : string) :
  exists i, split slash s = repeat EmptyString i ++ split slash (lstrip s).
Proof.
  induction s as [|c r [i IH]]; simpl.
  - now exists 0.
  - destruct (Ascii.eqb c slash) eqn:E.
    + exists (S i). simpl. now rewrite IH.
    + exists 0. simpl. now rewrite E.
Qed.

(** Each trailing slash is an empty trailing segment. *)
Lemma split_rstrip (s : string) :
  exists j, split slash s = split slash (rstrip s) ++ repeat EmptyString j.
Proof.
  induction s as [|c r [j IH]]; simpl.
  - now exists 0.
  - destruct (rstrip r) as [|d r1] eqn:R.
    + simpl in IH. destruct (Ascii.eqb c slash) eqn:E.
      * exists (S j). simpl. now rewrite IH.
      * exists j. simpl. rewrite E, IH. reflexivity.
    + set (u := String d r1) in *. exists j. cbn [split].
      destruct (split_cons slash u) as (h & t & Hs).
      rewrite IH, Hs. destruct (Ascii.eqb c slash); reflexivity.
Qed.

Lemma rstrip_no_trailing_slash (s : string) : ends_with_slash (rstrip s) = false.
Proof.
  induction s as [|c r IH]; simpl; auto.
  destruct (rstrip r) as [|d r1] eqn:R.
  - destruct (Ascii.eqb c slash) eqn:E; simpl; auto.
  - exact IH.
Qed.

Lemma rstrip_starts (s : string) :
  starts_with_slash s = false -> starts_with_slash (rstrip s) = false.
Proof.
  destruct s as [|c r]; simpl; auto.
  intros E. rewrite E. destruct (rstrip r); simpl; auto.
Qed.

Lemma lstrip_starts (s : string) : starts_with_slash (lstrip s) = false.
Proof.
  induction s as [|c r IH]; simpl; auto.
  destruct (Ascii.eqb c slash) eqn:E; simpl; auto.
Qed.

Lemma strip_starts (s : string) : starts_with_slash (strip s) = false.
Proof. apply rstrip_starts, lstrip_starts. Qed.

Lemma strip_ends (s : string) : ends_with_slash (strip s) = false.
Proof. apply rstrip_no_trailing_slash. Qed.

(** A text that does not start with a slash starts with a non-empty
    segment, unless it is empty. *)
Lemma split_head_nonempty (s : string) :
  starts_with_slash s = false -> s <> EmptyString ->
  exists c h t, split slash s = String c h :: t.
Proof.
  destruct s as [|c r]; simpl; [congruence|].
  intros E _. rewrite E.
  destruct (split_cons slash r) as (h & t & Hs). rewrite Hs.
  now exists c, h, t.
Qed.

(** A text that does not end with a slash ends with a non-empty segment,
    unless it is empty. *)
Lemma split_last_nonempty (s : string) :
  ends_with_slash s = false -> s <> EmptyString ->
  nonempty (last (split slash s) EmptyString) = true.
Proof.
  induction s as [|c r IH]; [congruence|].
  intros E _. destruct r as [|d r1].
  - simpl in E. simpl. rewrite E. reflexivity.
  - assert (E' : ends_with_slash (String d r1) = false) by exact E.
    specialize (IH E' ltac:(discriminate)).
    set (u := String d r1) in *. cbn [split].
    destruct (split_cons slash u) as (h & t & Hs). rewrite Hs in *.
    destruct (Ascii.eqb c slash).
    + exact IH.
    + destruct t; [|exact IH]. reflexivity.
Qed.

Lemma filter_nonempty_repeat (i : nat) :
  filter nonempty (repeat EmptyString i) = [].
Proof. induction i; simpl; auto. Qed.

Lemma drop_empty_repeat (i : nat) (l : list string) :
  drop_empty (repeat EmptyString i ++ l) = drop_empty l.
Proof. induction i; simpl; auto. Qed.

Lemma last_in_filter (l : list string) :
  l <> [] -> nonempty (last l EmptyString) = true ->
  filter nonempty l <> [].
Proof.
  induction l as [|a l IH]; [congruence|].
  intros _ H. destruct l as [|b l].
  - simpl in *. rewrite H. discriminate.
  - simpl. destruct (nonempty a); [discriminate|].
    apply IH; [discriminate|exact H].
Qed.

End StringFacts.

(** ** URL Parser *)

Section UrlParserFacts.
Import PyStr.

(** The two shapes of the parts of a stripped path, read on the segments
    of the path itself. *)
Lemma strip_split_cases (p : string) :
  (exists x, split slash (strip p) = [x]
             /\ List.length (filter nonempty (split slash p)) < 2
             /\ nth 1 (drop_empty (split slash p)) "" = "")
  \/ (exists c h b rest tail,
         split slash (strip p) = String c h :: b :: rest
         /\ 2 <= List.length (filter nonempty (split slash p))
         /\ drop_empty (split slash p) = String c h :: b :: tail).
Proof.
  destruct (split_lstrip p) as [i Hl].
  destruct (split_rstrip (lstrip p)) as [j Hr].
  fold (strip p) in Hr.
  assert (Hseg : split slash p
                 = repeat "" i ++ split slash (strip p) ++ repeat "" j)
    by now rewrite Hl, Hr.
  assert (Hne : filter nonempty (split slash p)
                = filter nonempty (split slash (strip p))).
  { rewrite Hseg, !filter_app, !filter_nonempty_repeat, app_nil_r.
    reflexivity. }
  destruct (strip p) as [|c0 u0] eqn:U.
  - left. exists "". rewrite Hne, Hseg, drop_empty_repeat. simpl.
    repeat split; auto.
    clear. induction j; simpl; auto.
  - pose proof (strip_starts p) as Hs. pose proof (strip_ends p) as He.
    rewrite U in Hs, He.
    destruct (split_head_nonempty (String c0 u0) Hs ltac:(discriminate))
      as (c & h & t & Hp).
    pose proof (split_last_nonempty (String c0 u0) He ltac:(discriminate))
      as Hlast.
    rewrite Hp in *. destruct t as [|b rest].
    + left. exists (String c h). rewrite Hne, Hseg, drop_empty_repeat.
      simpl. repeat split; auto.
      clear. destruct j; simpl; auto.
    + right. exists c, h, b, rest, (rest ++ repeat "" j).
      rewrite Hne, Hseg, drop_empty_repeat. repeat split; auto.
      assert (Hf : filter nonempty (b :: rest) <> []).
      { apply last_in_filter; [discriminate|exact Hlast]. }
      change (filter nonempty (String c h :: b :: rest))
        with (String c h :: filter nonempty (b :: rest)).
      destruct (filter nonempty (b :: rest)); [congruence|simpl; lia].
Qed.

Lemma filter_drop_empty (l : list string) :
  filter nonempty (drop_empty l) = filter nonempty l.
Proof. induction l as [|[|c s] l IH]; simpl; auto. Qed.

End UrlParserFacts.



(** ** Traces *)

Lemma requests_app (a b : list event) :
  requests (a ++ b) = requests a ++ requests b.
Proof.
  induction a as [|e a IH]; simpl; auto.
  destruct e; simpl; now rewrite ?IH.
Qed.

Lemma requests_In (u : string) (tr : list event) :
  In u (requests tr) <-> In (Get u) tr.
Proof.
  induction tr as [|e tr IH]; simpl; [tauto|].
  destruct e; simpl; rewrite IH; split; intros H;
    try (destruct H as [H|H]; [inversion H; subst|]); auto; try tauto;
    try discriminate.
Qed.

Lemma existsb_fs_app (a b : list event) :
  existsb is_fs_event (a ++ b) = existsb is_fs_event a || existsb is_fs_event b.
Proof. apply existsb_app. Qed.

(** ** The bounded walker *)

Lemma file_not_dir (item : Item) : is_file item = true -> is_dir item = false.
Proof.
  unfold is_file, is_dir. intros H. apply String.eqb_eq in H. now rewrite H.
Qed.

Lemma classify_spec (contents : list Item) (fs : list Item) (ds : list string) :
  classify contents fs ds = (fs ++ files_in contents, ds ++ dirs_in contents).
Proof.
  revert fs ds. induction contents as [|item rest IH]; intros fs ds.
  - simpl. now rewrite !app_nil_r.
  - cbn [classify]. unfold files_in, dirs_in in *. cbn [filter].
    fold (is_file item). fold (is_dir item).
    destruct (is_file item) eqn:F.
    + rewrite (file_not_dir item F), IH, <- app_assoc. reflexivity.
    + destruct (is_dir item) eqn:D; rewrite IH.
      * cbn [map]. rewrite <- app_assoc. reflexivity.
      * reflexivity.
Qed.

Section WalkerFacts.
Variable w : remote.
Variable api_url : string.

Lemma visit_directories_spec (dirs : list string)
      (fs : list Item) (nd : list string) :
  exists tr,
    visit_directories w api_url dirs fs nd
    = (fs ++ files_of w api_url dirs, nd ++ below w api_url dirs, tr)
    /\ requests tr = map (dir_url api_url) dirs
    /\ (forall d e, In d dirs -> json_at w (dir_url api_url d) = Raise e ->
                    In (Print ("Error accessing directory " ^ d ^ ": " ^ e)) tr)
    /\ existsb is_fs_event tr = false.
Proof.
  revert fs nd. induction dirs as [|d rest IH]; intros fs nd.
  - exists []. simpl. rewrite !app_nil_r. repeat split; auto.
  - cbn [visit_directories]. unfold files_of, below in *.
    cbn [flat_map]. unfold listing at 1 3.
    change (api_url ^ "/" ^ d) with (dir_url api_url d).
    destruct (json_at w (dir_url api_url d)) as [c|e] eqn:J.
    + rewrite classify_spec.
      destruct (IH (fs ++ files_in c) (nd ++ dirs_in c))
        as (tr & -> & Hr & Hlog & Hfs).
      exists (Get (dir_url api_url d) :: tr).
      rewrite <- !app_assoc. split; [reflexivity|].
      split; [simpl; now rewrite Hr|]. split; [|exact Hfs].
      intros d' e' [<-|Hin] Hj; [congruence|]. right. eauto.
    + destruct (IH fs nd) as (tr & -> & Hr & Hlog & Hfs).
      eexists. split; [reflexivity|].
      split; [simpl; now rewrite Hr|]. split; [|exact Hfs].
      intros d' e' [<-|Hin] Hj.
      * right. left. congruence.
      * right. right. eauto.
Qed.

Lemma walk_files_nil (n : nat) : walk_files w api_url n [] = [].
Proof. induction n; simpl; auto. Qed.

Lemma walk_dirs_nil (n : nat) : walk_dirs w api_url n [] = [].
Proof. induction n; simpl; auto. Qed.

Lemma descend_spec (n : nat) (dirs : list string) (fs : list Item) :
  exists tr,
    descend w n api_url dirs fs = (fs ++ walk_files w api_url n dirs, tr)
    /\ requests tr = map (dir_url api_url) (walk_dirs w api_url n dirs)
    /\ (forall d e, In d (walk_dirs w api_url n dirs) ->
                    json_at w (dir_url api_url d) = Raise e ->
                    In (Print ("Error accessing directory " ^ d ^ ": " ^ e)) tr)
    /\ existsb is_fs_event tr = false.
Proof.
  revert dirs fs. induction n as [|k IH]; intros dirs fs.
  - exists []. simpl. rewrite app_nil_r. destruct dirs; repeat split; auto.
  - destruct dirs as [|d rest].
    + exists []. rewrite walk_files_nil, walk_dirs_nil, app_nil_r.
      repeat split; auto.
    + cbn [descend].
      destruct (visit_directories_spec (d :: rest) fs [])
        as (tr1 & -> & Hr1 & Hlog1 & Hfs1).
      cbn [app].
      destruct (IH (below w api_url (d :: rest))
                   (fs ++ files_of w api_url (d :: rest)))
        as (tr2 & -> & Hr2 & Hlog2 & Hfs2).
      exists (tr1 ++ tr2). cbn [walk_files walk_dirs].
      rewrite <- app_assoc, requests_app, Hr1, Hr2, map_app, existsb_fs_app,
        Hfs1, Hfs2.
      repeat split; auto.
      intros d' e' Hin Hj. apply in_or_app. apply in_app_or in Hin.
      destruct Hin; [left|right]; eauto.
Qed.

Lemma discover_spec :
  fst (discover w api_url) = found w api_url
  /\ requests (snd (discover w api_url))
     = api_url :: map (dir_url api_url) (listed w api_url)
  /\ (forall d e, In d (listed w api_url) ->
                  json_at w (dir_url api_url d) = Raise e ->
                  In (Print ("Error accessing directory " ^ d ^ ": " ^ e))
                     (snd (discover w api_url)))
  /\ existsb is_fs_event (snd (discover w api_url)) = false.
Proof.
  unfold discover, found, listed, listing.
  destruct (json_at w api_url) as [contents|e] eqn:J.
  - rewrite classify_spec. cbn [app].
    destruct (descend_spec max_depth (dirs_in contents) (files_in contents))
      as (tr & -> & Hr & Hlog & Hfs).
    cbn [fst snd requests]. rewrite Hr. repeat split; auto.
    intros d e Hin Hj. right. eauto.
  - cbn. repeat split; auto; try (intros ? ? []).
Qed.

End WalkerFacts.

Lemma filter_absorb {A : Type} (p q : A -> bool) (l : list A) :
  (forall x, p x = true -> q x = true) ->
  filter p (filter q l) = filter p l.
Proof.
  intros H. induction l as [|x l IH]; simpl; auto.
  destruct (q x) eqn:Q; simpl; destruct (p x) eqn:P; rewrite ?IH; auto.
  apply H in P. congruence.
Qed.

Section PruneLinkFacts.
Variable w : remote.
Variable api_url : string.

Local Abbreviation pruned := (prune_link w api_url).
Local Abbreviation live := (alive w api_url).

Lemma prune_link_listing (url : string) :
  listing pruned url = filter (keep_link w api_url) (listing w url).
Proof.
  unfold listing, prune_link. simpl. destruct (json_at w url); auto.
Qed.

Lemma prune_link_files (contents : list Item) :
  files_in (filter (keep_link w api_url) contents) = files_in contents.
Proof.
  apply filter_absorb. intros x Hx. unfold keep_link.
  now rewrite (file_not_dir x Hx).
Qed.

Lemma prune_link_dirs (contents : list Item) :
  dirs_in (filter (keep_link w api_url) contents)
  = filter live (dirs_in contents).
Proof.
  unfold dirs_in, keep_link, alive.
  induction contents as [|x l IH]; simpl; auto.
  destruct (is_dir x) eqn:D; simpl.
  - destruct (fails w (dir_url api_url (path x))); simpl; rewrite ?D; simpl;
      now rewrite IH.
  - rewrite D. exact IH.
Qed.

Lemma dead_listing (d : string) : live d = false -> listing w (dir_url api_url d) = [].
Proof.
  unfold alive, fails, listing.
  destruct (json_at w (dir_url api_url d)); simpl; congruence.
Qed.

Lemma prune_link_files_of (ds : list string) :
  files_of pruned api_url (filter live ds) = files_of w api_url ds.
Proof.
  unfold files_of. induction ds as [|d ds IH]; simpl; auto.
  destruct (live d) eqn:A; simpl.
  - now rewrite IH, prune_link_listing, prune_link_files.
  - now rewrite IH, (dead_listing d A).
Qed.

Lemma prune_link_below (ds : list string) :
  below pruned api_url (filter live ds) = filter live (below w api_url ds).
Proof.
  unfold below. induction ds as [|d ds IH]; simpl; auto.
  destruct (live d) eqn:A; simpl.
  - now rewrite IH, prune_link_listing, prune_link_dirs, filter_app.
  - now rewrite IH, (dead_listing d A).
Qed.

Lemma prune_link_walk_files (n : nat) (ds : list string) :
  walk_files pruned api_url n (filter live ds) = walk_files w api_url n ds.
Proof.
  revert ds. induction n as [|k IH]; intros ds; simpl; auto.
  now rewrite prune_link_files_of, prune_link_below, IH.
Qed.

Lemma prune_link_found : found pruned api_url = found w api_url.
Proof.
  unfold found.
  assert (E : json_at pruned api_url
              = match json_at w api_url with
                | Ok contents => Ok (filter (keep_link w api_url) contents)
                | Raise e => Raise e
                end) by reflexivity.
  rewrite E. destruct (json_at w api_url) as [contents|e]; auto.
  now rewrite prune_link_files, prune_link_dirs, prune_link_walk_files.
Qed.

(** In the pruned remote no listed directory fails. *)
Lemma prune_link_alive (contents : list Item) (d : string) :
  In d (dirs_in (filter (keep_link w api_url) contents)) ->
  fails pruned (dir_url api_url d) = false.
Proof.
  rewrite prune_link_dirs. intros H. apply filter_In in H as [_ H].
  unfold alive in H. unfold fails, prune_link in *. simpl.
  destruct (json_at w (dir_url api_url d)); simpl in *; congruence.
Qed.

End PruneLinkFacts.

(** ** The exhaustive walker *)

Lemma exists_in_cons {A : Type} (P : A -> Prop) (a : A) (l : list A) :
  (exists x, In x (a :: l) /\ P x) <-> P a \/ exists x, In x l /\ P x.
Proof.
  split.
  - intros (x & [<-|H] & Hp); eauto.
  - intros [H|(x & H & Hp)]; [exists a|exists x]; simpl; auto.
Qed.

Lemma append_nil_r (s : string) : s ^ "" = s.
Proof. induction s as [|c s IH]; simpl; [|rewrite IH]; reflexivity. Qed.

Lemma append_assoc (a b c : string) : (a ^ b) ^ c = a ^ (b ^ c).
Proof. induction a as [|x a IH]; simpl; [|rewrite IH]; reflexivity. Qed.

Lemma strip_prefix_append (pre s : string) : strip_prefix pre (pre ^ s) = Some s.
Proof.
  induction pre as [|c pre IH]; simpl; [reflexivity|].
  now rewrite Ascii.eqb_refl.
Qed.

Lemma export_api_url_root (username repo_name dir_path : string) :
  export_api_url username repo_name dir_path
  = export_api_url username repo_name "" ^ dir_path.
Proof.
  unfold export_api_url. rewrite !append_assoc. reflexivity.
Qed.

Section ExportFacts.
Variable w : remote.
Variables username repo_name : string.

Local Abbreviation U := (export_api_url username repo_name).
Local Abbreviation Reach := (reach w username repo_name).
Local Abbreviation RowAt := (row_at w username repo_name).
Local Abbreviation FromItem := (from_item w username repo_name).
Local Abbreviation ReqItem := (req_item w username repo_name).
Local Abbreviation ItemsOk := (items_ok w username repo_name).
Local Abbreviation WalkOk := (walk_ok w username repo_name).
Local Abbreviation run := (get_contents_recursive w).

Lemma items_ok_nil (p : string) : ItemsOk p [] [] [].
Proof.
  repeat split; simpl; try tauto; try (intros (x & [] & _)).
Qed.

(** Joining what the first entry gives with what the others give. *)
Lemma items_ok_cons (p : string) (item : Item) (rest : list Item)
      (new1 new2 : list Row) (tr1 tr2 : list event) :
  (forall row, In row new1 <-> FromItem p item row) ->
  (forall url, In url (requests tr1) <-> ReqItem p item url) ->
  (forall q k e,
      is_file item = false -> is_dir item = true ->
      Reach (subdirectory_path p item) q k ->
      json_at w (U q) = Raise e ->
      In (Print ("Error fetching files from " ^ q ^ ": " ^ e)) tr1) ->
  existsb is_fs_event tr1 = false ->
  ItemsOk p rest new2 tr2 ->
  ItemsOk p (item :: rest) (new1 ++ new2) (tr1 ++ tr2).
Proof.
  intros H1 H2 H4 H3 (R1 & R2 & R4 & R3). split; [|split; [|split]].
  - intros row. rewrite in_app_iff, exists_in_cons, H1, R1. reflexivity.
  - intros url. rewrite requests_app, in_app_iff, exists_in_cons, H2, R2.
    reflexivity.
  - intros it q k e [<-|Hin] F D Hr J; apply in_or_app; [left|right]; eauto.
  - rewrite existsb_fs_app, H3, R3. reflexivity.
Qed.

Lemma from_item_file (p : string) (item : Item) :
  is_file item = true ->
  (forall row, In row [row_of p item] <-> FromItem p item row)
  /\ (forall url, In url [] <-> ReqItem p item url).
Proof.
  intros F. split.
  - intros row. unfold from_item. simpl. split.
    + intros [<-|[]]. left. auto.
    + intros [[_ ->]|(F' & _)]; [auto|congruence].
  - intros url. split; [intros []|]. intros (F' & _). congruence.
Qed.

Lemma from_item_other (p : string) (item : Item) :
  is_file item = false -> is_dir item = false ->
  (forall row, In row [] <-> FromItem p item row)
  /\ (forall url, In url [] <-> ReqItem p item url).
Proof.
  intros F D. split.
  - intros row. split; [intros []|].
    intros [[F' _]|(_ & D' & _)]; congruence.
  - intros url. split; [intros []|]. intros (_ & D' & _). congruence.
Qed.

Lemma from_item_dir (p : string) (item : Item)
      (new : list Row) (tr : list event) :
  is_file item = false -> is_dir item = true ->
  WalkOk (subdirectory_path p item) new tr ->
  (forall row, In row new <-> FromItem p item row)
  /\ (forall url, In url (requests tr) <-> ReqItem p item url).
Proof.
  intros F D (W1 & W2 & _ & _). split.
  - intros row. rewrite W1. unfold from_item. split.
    + intros H. right. auto.
    + intros [[F' _]|(_ & _ & H)]; [congruence|exact H].
  - intros url. rewrite W2. unfold req_item. split.
    + intros H. auto.
    + intros (_ & _ & H). exact H.
Qed.

Lemma for_items_ok
      (recurse : string -> list Row -> option (bool * list Row * list event))
      (p : string) :
  (forall q fs0 ok fs1 tr1,
      recurse q fs0 = Some (ok, fs1, tr1) ->
      exists new, fs1 = fs0 ++ new /\ WalkOk q new tr1) ->
  forall items fs fs' tr,
    for_items recurse p items fs = Some (fs', tr) ->
    exists new, fs' = fs ++ new /\ ItemsOk p items new tr.
Proof.
  intros Hrec. induction items as [|item rest IH]; intros fs fs' tr H.
  - simpl in H. inversion H; subst. exists []. rewrite app_nil_r.
    split; [reflexivity|apply items_ok_nil].
  - cbn [for_items] in H. fold (is_file item) in H. fold (is_dir item) in H.
    destruct (is_file item) eqn:F; [|destruct (is_dir item) eqn:D].
    + apply IH in H as (new & -> & Hok).
      exists ([row_of p item] ++ new). rewrite <- app_assoc.
      split; [reflexivity|].
      destruct (from_item_file p item F) as [A B].
      apply (items_ok_cons p item rest [row_of p item] new [] tr); auto.
      intros; congruence.
    + destruct (recurse (subdirectory_path p item) fs)
        as [[[ok1 fs1] tr1]|] eqn:R; [|discriminate].
      destruct (for_items recurse p rest fs1) as [[fs2 tr2]|] eqn:R2;
        [|discriminate].
      inversion H; subst; clear H.
      apply Hrec in R as (new1 & -> & Hw).
      apply IH in R2 as (new2 & -> & Hok).
      exists (new1 ++ new2). rewrite <- app_assoc. split; [reflexivity|].
      destruct (from_item_dir p item new1 tr1 F D Hw) as [A B].
      apply items_ok_cons; auto; try apply Hw.
      intros q k e _ _. apply Hw.
    + apply IH in H as (new & -> & Hok). exists ([] ++ new).
      split; [reflexivity|].
      destruct (from_item_other p item F D) as [A B].
      apply (items_ok_cons p item rest [] new [] tr); auto.
      intros; congruence.
Qed.

Lemma reach_inv (p q : string) (k : nat) :
  Reach p q k ->
  (q = p /\ k = 0)
  \/ exists contents item k',
      json_at w (U p) = Ok contents /\ In item contents
      /\ is_file item = false /\ is_dir item = true
      /\ Reach (subdirectory_path p item) q k' /\ k = S k'.
Proof.
  intros H. inversion H; subst; [left; auto|].
  right. eauto 10.
Qed.

(** A finished walk added exactly the rows of the reachable directories,
    and asked exactly for their listings. *)
Lemma get_contents_recursive_ok (fuel : nat) :
  forall p fs ok fs' tr,
    run fuel username repo_name p fs = Some (ok, fs', tr) ->
    exists new, fs' = fs ++ new /\ WalkOk p new tr.
Proof.
  induction fuel as [|fuel IH]; intros p fs ok fs' tr H; [discriminate|].
  cbn [get_contents_recursive] in H.
  destruct (json_at w (U p)) as [contents|e] eqn:J.
  - destruct (for_items (run fuel username repo_name) p contents fs)
      as [[fs1 tr1]|] eqn:R; [|discriminate].
    inversion H; subst; clear H.
    apply (for_items_ok _ p IH) in R as (new & -> & (I1 & I2 & I4 & I3)).
    exists new. split; [reflexivity|]. split; [|split; [|split]].
    + intros row. rewrite I1. split.
      * intros (item & Hin & [[F ->]|(F & D & q & k & Hr & Hat)]).
        -- exists p, 0. split; [constructor|]. exists contents, item. auto.
        -- exists q, (S k). split; [|exact Hat].
           apply (reach_down w username repo_name p contents item); auto.
      * intros (q & k & Hr & Hat). apply reach_inv in Hr
          as [[-> ->]|(c & item & k' & Jc & Hin & F & D & Hr & ->)].
        -- destruct Hat as (c & item & Jc & Hin & F & ->).
           rewrite J in Jc. inversion Jc; subst. exists item. split; auto.
           left. auto.
        -- rewrite J in Jc. inversion Jc; subst. exists item. split; auto.
           right. eauto 10.
    + intros url. cbn [requests In]. rewrite I2. split.
      * intros [<-|(item & Hin & F & D & q & k & Hr & ->)].
        -- exists p, 0. split; [constructor|reflexivity].
        -- exists q, (S k). split; [|reflexivity].
           apply (reach_down w username repo_name p contents item); auto.
      * intros (q & k & Hr & ->). apply reach_inv in Hr
          as [[-> ->]|(c & item & k' & Jc & Hin & F & D & Hr & ->)]; auto.
        rewrite J in Jc. inversion Jc; subst. right. exists item.
        split; auto. unfold req_item. eauto 10.
    + intros q k e Hr Je. apply reach_inv in Hr
        as [[-> ->]|(c & item & k' & Jc & Hin & F & D & Hr & ->)];
        [congruence|].
      rewrite J in Jc. inversion Jc; subst. right. eauto.
    + exact I3.
  - inversion H; subst; clear H. exists []. rewrite app_nil_r.
    split; [reflexivity|]. split; [|split; [|split]]; [| | |reflexivity].
    + intros row. split; [intros []|].
      intros (q & k & Hr & Hat). apply reach_inv in Hr
        as [[-> ->]|(c & item & k' & Jc & _)]; [|congruence].
      destruct Hat as (c & item & Jc & _). congruence.
    + intros url. cbn [requests In]. split.
      * intros [<-|[]]. exists p, 0. split; [constructor|reflexivity].
      * intros (q & k & Hr & ->). apply reach_inv in Hr
          as [[-> ->]|(c & item & k' & Jc & _)]; [auto|congruence].
    + intros q k e' Hr Je. apply reach_inv in Hr
        as [[-> ->]|(c & item & k' & Jc & _)]; [|congruence].
      rewrite J in Je. inversion Je; subst. right. left. reflexivity.
Qed.

(** The flag returned tells whether the first listing succeeded. *)
Lemma get_contents_recursive_flag (fuel : nat) (p : string) (fs : list Row)
      (ok : bool) (fs' : list Row) (tr : list event) :
  run fuel username repo_name p fs = Some (ok, fs', tr) ->
  ok = negb (fails w (U p)).
Proof.
  destruct fuel as [|fuel]; [discriminate|]. cbn [get_contents_recursive].
  unfold fails. destruct (json_at w (U p)) as [contents|e].
  - destruct (for_items _ p contents fs) as [[fs1 tr1]|]; [|discriminate].
    intros H. now inversion H.
  - intros H. now inversion H.
Qed.

Lemma fits_unfold (n : nat) (p : string) :
  fits w username repo_name n p
  = match json_at w (U p) with
    | Raise _ => true
    | Ok contents =>
        forallb
          (fun item =>
             if is_file item then true
             else if is_dir item then
               match n with
               | O => false
               | S k => fits w username repo_name k (subdirectory_path p item)
               end
             else true)
          contents
    end.
Proof. destruct n; reflexivity. Qed.

Lemma for_items_total
      (recurse : string -> list Row -> option (bool * list Row * list event))
      (p : string) (items : list Item) :
  (forall item fs0,
      In item items -> is_file item = false -> is_dir item = true ->
      exists res, recurse (subdirectory_path p item) fs0 = Some res) ->
  forall fs, exists res, for_items recurse p items fs = Some res.
Proof.
  induction items as [|item rest IH]; intros Hrec fs.
  - simpl. eauto.
  - cbn [for_items]. fold (is_file item). fold (is_dir item).
    assert (Hrest : forall fs, exists res, for_items recurse p rest fs = Some res).
    { apply IH. intros it fs0 Hin. apply Hrec. now right. }
    destruct (is_file item) eqn:F; [apply Hrest|].
    destruct (is_dir item) eqn:D; [|apply Hrest].
    destruct (Hrec item fs (or_introl eq_refl) F D) as ([[ok1 fs1] tr1] & ->).
    destruct (Hrest fs1) as ([fs2 tr2] & ->). eauto.
Qed.

(** Enough fuel: a walk over a tree of depth at most [n] ends as soon as
    the fuel exceeds [n]. *)
Lemma get_contents_recursive_total (fuel : nat) :
  forall n p fs,
    fits w username repo_name n p = true -> n < fuel ->
    exists res, run fuel username repo_name p fs = Some res.
Proof.
  induction fuel as [|fuel IH]; intros n p fs Hfit Hlt; [lia|].
  cbn [get_contents_recursive]. rewrite fits_unfold in Hfit.
  destruct (json_at w (U p)) as [contents|e]; [|eauto].
  destruct (for_items_total (run fuel username repo_name) p contents) with (fs := fs)
    as ([fs1 tr1] & ->); [|eauto].
  intros item fs0 Hin F D.
  rewrite forallb_forall in Hfit. specialize (Hfit item Hin).
  rewrite F, D in Hfit. destruct n as [|k]; [discriminate|].
  apply (IH k); [exact Hfit|lia].
Qed.

Local Abbreviation w' := (prune_export w username repo_name).

Lemma prune_export_json (p : string) :
  json_at w' (U p)
  = match json_at w (U p) with
    | Raise e => Raise e
    | Ok contents => Ok (filter (keep_export w username repo_name p) contents)
    end.
Proof.
  pose proof (strip_prefix_append (U "") p) as E.
  rewrite <- export_api_url_root in E.
  unfold prune_export. cbn [json_at]. rewrite E. reflexivity.
Qed.

(** Isolation of failures: the walk over the remote without the entries
    of failing directories adds the same rows. *)
Lemma get_contents_recursive_prune (fuel : nat) :
  forall p fs ok fs' tr,
    run fuel username repo_name p fs = Some (ok, fs', tr) ->
    exists tr',
      get_contents_recursive w' fuel username repo_name p fs
      = Some (ok, fs', tr').
Proof.
  induction fuel as [|fuel IH]; intros p fs ok fs' tr H; [discriminate|].
  cbn [get_contents_recursive] in *. rewrite prune_export_json.
  destruct (json_at w (U p)) as [contents|e]; [|inversion H; eauto].
  destruct (for_items (run fuel username repo_name) p contents fs)
    as [[fs1 tr1]|] eqn:R; [|discriminate].
  inversion H; subst; clear H.
  enough (exists tr2,
             for_items (get_contents_recursive w' fuel username repo_name) p
                       (filter (keep_export w username repo_name p) contents) fs
             = Some (fs', tr2)) as (tr2 & ->) by eauto.
  clear - IH R. revert fs tr1 R.
  induction contents as [|item rest IHc]; intros fs tr1 R.
  - simpl in *. inversion R. eauto.
  - cbn [for_items filter] in *. unfold keep_export at 1.
    fold (is_file item) in *. fold (is_dir item) in *.
    destruct (is_file item) eqn:F.
    + cbn [negb andb for_items]. fold (is_file item). rewrite F. eauto.
    + destruct (is_dir item) eqn:D.
      * destruct (run fuel username repo_name (subdirectory_path p item) fs)
          as [[[ok1 fs1] t1]|] eqn:R1; [|discriminate].
        destruct (for_items (run fuel username repo_name) p rest fs1)
          as [[fs2 t2]|] eqn:R2; [|discriminate].
        inversion R; subst; clear R.
        pose proof (get_contents_recursive_flag _ _ _ _ _ _ R1) as Hflag.
        destruct (fails w (U (subdirectory_path p item))) eqn:Fl.
        -- cbn [negb andb]. 
           assert (fs1 = fs) as ->.
           { destruct fuel; [discriminate|]. cbn [get_contents_recursive] in R1.
             unfold fails in Fl.
             destruct (json_at w (U (subdirectory_path p item)));
               [discriminate|]. now inversion R1. }
           eauto.
        -- cbn [negb andb for_items]. fold (is_file item). fold (is_dir item).
           rewrite F, D.
           apply IH in R1 as (t1' & ->).
           apply IHc in R2 as (t2' & ->). eauto.
      * cbn [negb andb for_items]. fold (is_file item). fold (is_dir item).
        rewrite F, D. eauto.
Qed.

End ExportFacts.

(** ** The CSV writer and reader *)

Section CsvFacts.
Import Csv.

Lemma add_append (field : string) (c : ascii) (s : string) :
  add field c ^ s = field ^ String c s.
Proof. unfold add. now rewrite append_assoc. Qed.

Lemma special_false (c : ascii) :
  special c = false ->
  is_eol c = false /\ Ascii.eqb c quotechar = false
  /\ Ascii.eqb c delimiter = false.
Proof.
  unfold special. intros H.
  apply orb_false_iff in H as [H H3]. apply orb_false_iff in H as [H1 H2].
  auto.
Qed.

Lemma reader_in_field (f : string) :
  has_special f = false ->
  forall row field rest,
    reader InField row field (f ^ rest) = reader InField row (field ^ f) rest.
Proof.
  induction f as [|c f IH]; intros Hs row field rest.
  - simpl. now rewrite append_nil_r.
  - simpl in Hs. apply orb_false_iff in Hs as [Hc Hf].
    destruct (special_false c Hc) as (E1 & E2 & E3).
    cbn [append reader step]. rewrite E1, E3.
    rewrite (IH Hf), add_append. reflexivity.
Qed.

Lemma reader_plain (st : rstate) (f : string) :
  at_start st = true -> has_special f = false -> f <> EmptyString ->
  forall row rest,
    reader st row EmptyString (f ^ rest) = reader InField row f rest.
Proof.
  intros Hst Hs Hne row rest. destruct f as [|c f]; [congruence|].
  simpl in Hs. apply orb_false_iff in Hs as [Hc Hf].
  destruct (special_false c Hc) as (E1 & E2 & E3).
  cbn [append reader].
  assert (Hstep : step st c = AddChar InField).
  { destruct st; try discriminate; cbn [step];
      unfold step_start_record, step_start_field; now rewrite E1, E2, E3. }
  rewrite Hstep, (reader_in_field f Hf). reflexivity.
Qed.

Lemma reader_quoted (f : string) :
  forall row field rest,
    reader InQuotedField row field (double_quotes f ^ rest)
    = reader InQuotedField row (field ^ f) rest.
Proof.
  induction f as [|c f IH]; intros row field rest.
  - simpl. now rewrite append_nil_r.
  - cbn [double_quotes]. destruct (Ascii.eqb c quotechar) eqn:E.
    + apply Ascii.eqb_eq in E. subst c.
      cbn [append reader step]. rewrite Ascii.eqb_refl.
      cbn [reader step]. rewrite Ascii.eqb_refl.
      rewrite IH, add_append. reflexivity.
    + cbn [append reader step]. rewrite E, IH, add_append. reflexivity.
Qed.

Lemma reader_open_quote (st : rstate) (row : list string) (rest : string) :
  at_start st = true ->
  reader st row EmptyString (String quotechar rest)
  = reader InQuotedField row EmptyString rest.
Proof. destruct st; try discriminate; reflexivity. Qed.

(** A written field followed by the delimiter is read back and saved. *)
Lemma reader_field_delimiter (st : rstate) (f : string) :
  at_start st = true ->
  forall row rest,
    reader st row EmptyString (write_field f ^ String delimiter rest)
    = reader StartField (row ++ [f]) EmptyString rest.
Proof.
  intros Hst row rest. unfold write_field.
  destruct (has_special f) eqn:Hs.
  - cbn [append]. rewrite reader_open_quote by exact Hst.
    rewrite append_assoc, reader_quoted. reflexivity.
  - destruct f as [|c f].
    + destruct st; try discriminate; reflexivity.
    + rewrite (reader_plain st (String c f) Hst Hs) by discriminate.
      reflexivity.
Qed.

(** A written field followed by the line terminator ends the record. *)
Lemma reader_field_eol (st : rstate) (f : string) :
  st = StartField \/ (st = StartRecord /\ f <> EmptyString) ->
  forall row rest,
    reader st row EmptyString (write_field f ^ lineterminator ^ rest)
    = (row ++ [f]) :: reader StartRecord [] EmptyString rest.
Proof.
  intros Hst row rest.
  assert (Hs0 : at_start st = true) by (destruct Hst as [->|[-> _]]; reflexivity).
  unfold write_field. destruct (has_special f) eqn:Hs.
  - cbn [append]. rewrite reader_open_quote by exact Hs0.
    rewrite append_assoc, reader_quoted. reflexivity.
  - destruct f as [|c f].
    + destruct Hst as [->|[_ H]]; [reflexivity|congruence].
    + rewrite (reader_plain st (String c f) Hs0 Hs) by discriminate.
      reflexivity.
Qed.

Lemma reader_join (fs : list string) :
  forall f st row rest,
    st = StartField \/ (st = StartRecord /\ (f <> EmptyString \/ fs <> [])) ->
    reader st row EmptyString (join_fields (f :: fs) ^ lineterminator ^ rest)
    = (row ++ f :: fs) :: reader StartRecord [] EmptyString rest.
Proof.
  induction fs as [|g fs IH]; intros f st row rest Hst.
  - cbn [join_fields]. apply reader_field_eol.
    destruct Hst as [->|[-> [H|H]]]; auto; congruence.
  - change (join_fields (f :: g :: fs))
      with (write_field f ^ String delimiter (join_fields (g :: fs))).
    rewrite append_assoc. cbn [append].
    rewrite reader_field_delimiter
      by (destruct Hst as [->|[-> _]]; reflexivity).
    rewrite IH by auto. now rewrite <- app_assoc.
Qed.

(** One written record is read back, and the reader is ready for the
    next. *)
Lemma reader_writerow (fields : list string) (rest : string) :
  reader StartRecord [] EmptyString (writerow fields ^ rest)
  = fields :: reader StartRecord [] EmptyString rest.
Proof.
  destruct fields as [|f fs]; [reflexivity|].
  destruct f as [|c f]; [destruct fs as [|g fs]; [reflexivity|]|].
  - unfold writerow. rewrite append_assoc.
    apply (reader_join (g :: fs) "" StartRecord []). right. split; auto.
    right. discriminate.
  - unfold writerow. rewrite append_assoc.
    apply (reader_join fs (String c f) StartRecord []). right. split; auto.
    left. discriminate.
Qed.

Lemma read_csv_text (rows : list (list string)) : read (csv_text rows) = rows.
Proof.
  unfold read. induction rows as [|r rows IH]; [reflexivity|].
  cbn [csv_text]. now rewrite reader_writerow, IH.
Qed.

End CsvFacts.

(* ================================================================= *)
(** * The claims *)

(** ** C1: where the listing requests go *)

(** Supporting fact: the link flow asks the contents endpoint of the parsed
    owner and repository, first for the root, then for each directory under
    [contents/]. *)
Lemma get_random_file_link_requests_sample :
  requests (snd (get_random_file_link Sample.one_broken (Sample.draws 0)
                                      Sample.repo_url))
  = ["https://api.github.com/repos/alice/proj/contents";
     "https://api.github.com/repos/alice/proj/contents/broken";
     "https://api.github.com/repos/alice/proj/contents/docs"].
Proof. reflexivity. Qed.

(** C1 at the save flow.  The URL Parser extracts the owner and repository,
    and the listing request of [fetch_random_file] goes to the fixed page
    address all the same, whatever the remote and the generator: it is not
    under [repos/{owner}/{repo}/contents]. *)
Theorem C1_fetch_random_file_requests_fixed_page
        (w : remote) (randbelow : nat -> nat) :
  fst (parse_repo_url Sample.repo_url) = Some ("alice", "proj")
  /\ (exists rest,
         requests (snd (fetch_random_file w randbelow Sample.repo_url))
         = "https://github.com/krutikpatel/tech-revision-notes/tree/main/SpringFramework"
           :: rest)
  /\ fst (parse_repo_url Sample.page) = Some ("krutikpatel", "tech-revision-notes")
  /\ (exists rest,
         requests (snd (fetch_random_file w randbelow Sample.page))
         = "https://github.com/krutikpatel/tech-revision-notes/tree/main/SpringFramework"
           :: rest).
Proof.
  assert (H : forall repo_url o,
             parse_repo_url repo_url = (Some o, []) ->
             exists rest,
               requests (snd (fetch_random_file w randbelow repo_url))
               = Sample.page :: rest).
  { intros repo_url [u r] Hp. unfold fetch_random_file. rewrite Hp.
    destruct (discover_spec w (save_api_url u r)) as (_ & Hr & _).
    destruct (discover w (save_api_url u r)) as [[fs|e] tr]; cbn [snd] in Hr.
    - destruct fs as [|f fs].
      + cbn [app snd]. rewrite requests_app, Hr. cbn. eauto.
      + destruct (random_choice randbelow (f :: fs)) as [x|e].
        * destruct (text_at w (download_url x));
            cbn [app snd]; rewrite requests_app, Hr; cbn; eauto.
        * cbn [app snd]. rewrite requests_app, Hr. cbn. eauto.
    - cbn [app snd]. rewrite requests_app, Hr. cbn. eauto. }
  split; [reflexivity|]. split; [apply (H _ ("alice", "proj")); reflexivity|].
  split; [reflexivity|].
  apply (H _ ("krutikpatel", "tech-revision-notes")); reflexivity.
Qed.

(** ** C3: how the path of a child directory is obtained *)

(** C3 as stated fails in the bounded flows: the directory entry named [b]
    in the listing of [a] is listed under the [path] the API gave for it,
    here [zzz], and no request is made for [a/b]. *)
Lemma C3_counterexample_api_path :
  let tr := snd (get_random_file_link Sample.odd_paths (Sample.draws 0)
                                      Sample.repo_url) in
  json_at Sample.odd_paths (Sample.api ^ "/a") = Ok [Sample.dir_item "b" "zzz"]
  /\ requests tr = [Sample.api; Sample.api ^ "/a"; Sample.api ^ "/zzz"]
  /\ ~ In (Sample.api ^ "/a/b") (requests tr).
Proof.
  cbv zeta. split; [reflexivity|]. split; [reflexivity|].
  intros H. vm_compute in H. intuition discriminate.
Qed.

(** C3, as the code has it.  In the export flow the walker builds the path
    of a child itself: the entry's name after the parent path and a slash,
    or the name alone under an empty parent path; every request of a
    finished walk is for a directory reached that way, and every row is the
    parent path, a slash and the name of a file listed there.  In the
    bounded flows the requests after the first are for the [path] values of
    the API's directory entries, and the files found are the API's entries
    as they came. *)
Theorem C3_child_paths
        (w : remote) (username repo_name : string) (fuel : nat)
        (start : string) (ok : bool) (files : list Row) (tr : list event)
        (H : get_contents_recursive w fuel username repo_name start []
             = Some (ok, files, tr)) :
  (forall dir_path item,
      subdirectory_path dir_path item
      = if PyStr.is_empty dir_path then name item
        else dir_path ^ "/" ^ name item)
  /\ (forall url,
         In url (requests tr)
         <-> exists q k, reach w username repo_name start q k
                         /\ url = export_api_url username repo_name q)
  /\ (forall row,
         In row files
         <-> exists q k, reach w username repo_name start q k
                         /\ row_at w username repo_name q row)
  /\ (forall api_url,
         requests (snd (discover w api_url))
         = api_url :: map (fun d => api_url ^ "/" ^ d) (listed w api_url)
         /\ fst (discover w api_url) = found w api_url).
Proof.
  split; [|split; [|split]].
  - intros dir_path item. unfold subdirectory_path, PyStr.nonempty.
    now destruct (PyStr.is_empty dir_path).
  - apply get_contents_recursive_ok in H as (new & -> & (_ & W & _)). exact W.
  - apply get_contents_recursive_ok in H as (new & -> & (W & _)). exact W.
  - intros api_url. destruct (discover_spec w api_url) as (Hf & Hr & _).
    split; [exact Hr|exact Hf].
Qed.

Lemma C3_child_paths_witness :
  exists ok files tr,
    get_contents_recursive Sample.deep 6 "alice" "proj" "" [] = Some (ok, files, tr)
    /\ (forall url,
           In url (requests tr)
           <-> exists q k, reach Sample.deep "alice" "proj" "" q k
                           /\ url = export_api_url "alice" "proj" q).
Proof.
  eexists. eexists. eexists. split.
  - vm_compute. reflexivity.
  - apply (C3_child_paths Sample.deep "alice" "proj" 6 "" _ _ _ eq_refl).
Defined.

(** ** C4: listing failures *)

Lemma parse_repo_url_events (repo_url : string) (o : string * string)
      (tr : list event) :
  parse_repo_url repo_url = (Some o, tr) -> tr = [].
Proof.
  unfold parse_repo_url.
  destruct (Nat.ltb (List.length (path_parts repo_url)) 2); intros H;
    now inversion H.
Qed.



(** ** Traces of the flows *)

Lemma random_choice_spec {A : Type} (randbelow : nat -> nat) (seq : list A) :
  random_choice randbelow seq
  = match nth_error seq (randbelow (List.length seq)) with
    | Some x => Ok x
    | None =>
        match seq with
        | [] => Raise "Cannot choose from an empty sequence"
        | _ => Raise "list index out of range"
        end
    end.
Proof.
  destruct seq as [|a l]; [|reflexivity].
  simpl. now destruct (randbelow 0).
Qed.

Lemma report_link_trace (randbelow : nat -> nat) (msg : string)
      (all_files : list Item) :
  let tr := snd (report_link randbelow msg all_files) in
  requests tr = []
  /\ existsb is_fs_event tr = false
  /\ (forall n, In (RandBelow n) tr -> n = List.length all_files /\ 0 < n).
Proof.
  unfold report_link. destruct all_files as [|f fs].
  - cbn. split; [|split]; auto. intros n [H|[]]; discriminate.
  - destruct (random_choice randbelow (f :: fs)); cbn;
      (split; [|split]; auto; intros n Hin; simpl in Hin;
       repeat (destruct Hin as [Hin|Hin]); try discriminate;
       try contradiction; inversion Hin; simpl; split; (reflexivity || lia)).
Qed.

Lemma get_random_file_link_trace (w : remote) (randbelow : nat -> nat)
      (repo_url : string) :
  let tr := snd (get_random_file_link w randbelow repo_url) in
  requests tr
  = match fst (parse_repo_url repo_url) with
    | None => []
    | Some (o, rp) => requests (snd (discover w (link_api_url o rp)))
    end
  /\ existsb is_fs_event tr = false.
Proof.
  unfold get_random_file_link.
  destruct (parse_repo_url repo_url) as [[[o rp]|] tr0] eqn:Hp.
  - apply parse_repo_url_events in Hp as ->. cbn [fst app].
    destruct (discover_spec w (link_api_url o rp)) as (_ & _ & _ & Hfs).
    destruct (discover w (link_api_url o rp)) as [[fs|e] tr]; cbn [snd] in *.
    + destruct (report_link_trace randbelow "No files found in the repository." fs)
        as (Hr & Hf & _).
      destruct (report_link randbelow _ fs) as [r tr']. cbn [snd] in *.
      now rewrite requests_app, Hr, app_nil_r, existsb_fs_app, Hfs, Hf.
    + rewrite requests_app, existsb_fs_app, Hfs. cbn. now rewrite app_nil_r.
  - unfold parse_repo_url in Hp.
    destruct (Nat.ltb (List.length (path_parts repo_url)) 2);
      inversion Hp; subst; cbn; auto.
Qed.

Section QuietWalk.
Variable w : remote.
Variable api_url : string.

Lemma visit_directories_quiet (dirs : list string) :
  forall fs nd,
    forallb quiet (snd (visit_directories w api_url dirs fs nd)) = true.
Proof.
  induction dirs as [|d rest IH]; intros fs nd; [reflexivity|].
  cbn [visit_directories].
  destruct (json_at w (api_url ^ "/" ^ d)) as [c|e].
  - destruct (classify c fs nd) as [f1 n1]. specialize (IH f1 n1).
    destruct (visit_directories w api_url rest f1 n1) as [[f2 n2] t].
    exact IH.
  - specialize (IH fs nd).
    destruct (visit_directories w api_url rest fs nd) as [[f2 n2] t].
    exact IH.
Qed.

Lemma descend_quiet (n : nat) :
  forall dirs fs, forallb quiet (snd (descend w n api_url dirs fs)) = true.
Proof.
  induction n as [|k IH]; intros dirs fs; [now destruct dirs|].
  destruct dirs as [|d rest]; [reflexivity|]. cbn [descend].
  pose proof (visit_directories_quiet (d :: rest) fs []) as V.
  destruct (visit_directories w api_url (d :: rest) fs []) as [[f1 n1] t1].
  specialize (IH n1 f1).
  destruct (descend w k api_url n1 f1) as [f2 t2].
  cbn [snd] in *. now rewrite forallb_app, V, IH.
Qed.

Lemma discover_quiet : forallb quiet (snd (discover w api_url)) = true.
Proof.
  unfold discover. destruct (json_at w api_url) as [c|e]; [|reflexivity].
  destruct (classify c [] []) as [a d].
  pose proof (descend_quiet max_depth d a) as D.
  destruct (descend w max_depth api_url d a) as [f t]. exact D.
Qed.

End QuietWalk.

Lemma quiet_no_draw (tr : list event) (n : nat) :
  forallb quiet tr = true -> ~ In (RandBelow n) tr.
Proof.
  intros H Hin. rewrite forallb_forall in H. apply H in Hin. discriminate.
Qed.

Lemma fetch_random_file_trace (w : remote) (randbelow : nat -> nat)
      (repo_url : string) :
  let tr := snd (fetch_random_file w randbelow repo_url) in
  (forall url,
      In url (requests tr) ->
      exists o rp,
        fst (parse_repo_url repo_url) = Some (o, rp)
        /\ (In url (requests (snd (discover w (save_api_url o rp))))
            \/ exists all_files item,
                fst (discover w (save_api_url o rp)) = Ok all_files
                /\ In item all_files /\ url = download_url item))
  /\ existsb is_fs_event tr = false
  /\ (forall n, In (RandBelow n) tr -> 0 < n).
Proof.
  unfold fetch_random_file.
  destruct (parse_repo_url repo_url) as [[[o rp]|] tr0] eqn:Hp.
  - apply parse_repo_url_events in Hp as ->. cbn [fst app].
    destruct (discover_spec w (save_api_url o rp)) as (_ & _ & _ & Hfs).
    pose proof (discover_quiet w (save_api_url o rp)) as Hq.
    destruct (discover w (save_api_url o rp)) as [[fs|e] tr] eqn:Dv;
      cbn [snd fst] in *.
    + assert (Hleaf :
                forall extra,
                  (forall url, In url (requests extra) ->
                               exists item, In item fs /\ url = download_url item) ->
                  existsb is_fs_event extra = false ->
                  (forall n, In (RandBelow n) extra -> 0 < n) ->
                  (forall url,
                      In url (requests (tr ++ extra)) ->
                      exists o' rp',
                        Some (o, rp) = Some (o', rp')
                        /\ (In url (requests (snd (discover w (save_api_url o' rp'))))
                            \/ exists all_files item,
                                fst (discover w (save_api_url o' rp')) = Ok all_files
                                /\ In item all_files /\ url = download_url item))
                  /\ existsb is_fs_event (tr ++ extra) = false
                  /\ (forall n, In (RandBelow n) (tr ++ extra) -> 0 < n)).
      { intros extra E1 E2 E3. split; [|split].
        - intros url Hin. exists o, rp. split; [reflexivity|].
          rewrite Dv. cbn [fst snd]. rewrite requests_app in Hin.
          apply in_app_or in Hin as [Hin|Hin]; [auto|].
          right. apply E1 in Hin as (item & Hi & ->). eauto.
        - now rewrite existsb_fs_app, Hfs, E2.
        - intros n Hin. apply in_app_or in Hin as [Hin|Hin]; [|auto].
          now apply quiet_no_draw in Hin. }
      destruct fs as [|f fs].
      * apply Hleaf; [intros ? []|reflexivity|].
        intros n [H|[]]; discriminate.
      * rewrite random_choice_spec.
        destruct (nth_error (f :: fs) (randbelow (List.length (f :: fs))))
          as [x|] eqn:N.
        -- apply nth_error_In in N.
           destruct (text_at w (download_url x)); apply Hleaf;
             [ intros url [<-|[]]; eauto | reflexivity
             | intros k Hin; repeat (destruct Hin as [Hin|Hin]);
               try discriminate; try contradiction; inversion Hin; simpl; lia
             | intros url [<-|[]]; eauto | reflexivity
             | intros k Hin; repeat (destruct Hin as [Hin|Hin]);
               try discriminate; try contradiction; inversion Hin; simpl; lia ].
        -- apply Hleaf; [intros ? []|reflexivity|].
           intros k Hin; repeat (destruct Hin as [Hin|Hin]);
             try discriminate; try contradiction; inversion Hin; simpl; lia.
    + split; [|split].
      * intros url Hin. exists o, rp. split; [reflexivity|]. left.
        rewrite Dv. cbn [snd]. rewrite requests_app in Hin. cbn in Hin.
        now rewrite app_nil_r in Hin.
      * now rewrite existsb_fs_app, Hfs.
      * intros n Hin. apply in_app_or in Hin as [Hin|[Hin|[]]];
          [|discriminate]. now apply quiet_no_draw in Hin.
  - unfold parse_repo_url in Hp.
    destruct (Nat.ltb (List.length (path_parts repo_url)) 2);
      inversion Hp; subst; cbn; (split; [|split]); auto.
    + intros url F. destruct F.
    + intros n [H|F]; [discriminate|destruct F].
Qed.

(** ** C5: how deep the walks go *)

(** Supporting run: on a tree four levels deep the bounded walk lists the
    start, [l1] and [l1/l2]; [l1/l2/l3] is seen and never listed, and the
    files below it are not found. *)
Lemma discover_stops_sample :
  requests (snd (discover Sample.deep Sample.api))
  = [Sample.api; Sample.api ^ "/l1"; Sample.api ^ "/l1/l2"]
  /\ fst (discover Sample.deep Sample.api)
     = Ok [Sample.file_item "two.md" "l1/l2/two.md"].
Proof. split; reflexivity. Qed.

(** C5.  The bounded walker lists the start, the directories [d1] its
    listing shows (one level below) and the directories [d2] their
    listings show (two levels below), and nothing else; the files found
    are those of these listings.  This holds for the two flows built on
    it, the save flow adding only the download of the chosen file; the
    subdirectory flow lists its start and nothing below.  The
    export walker has no depth limit: whatever the depth [n] of the tree
    below the start, with fuel above [n] the walk ends, having listed every
    directory reachable from the start and collected the files of each. *)
Theorem C5_descent_depth
        (w : remote) (username repo_name : string) (n fuel : nat)
        (start : string)
        (Hfit : fits w username repo_name n start = true)
        (Hfuel : n < fuel) :
  (forall api_url,
      let d1 := dirs_in (listing w api_url) in
      let d2 := below w api_url d1 in
      requests (snd (discover w api_url))
      = api_url :: map (fun d => api_url ^ "/" ^ d) (d1 ++ d2)
      /\ fst (discover w api_url)
         = match json_at w api_url with
           | Raise e => Raise e
           | Ok contents =>
               Ok (files_in contents
                   ++ files_of w api_url d1 ++ files_of w api_url d2)
           end)
  /\ (forall randbelow repo_url,
         requests (snd (get_random_file_link w randbelow repo_url))
         = match fst (parse_repo_url repo_url) with
           | None => []
           | Some (o, rp) => requests (snd (discover w (link_api_url o rp)))
           end)
  /\ (forall randbelow repo_url url,
         In url (requests (snd (fetch_random_file w randbelow repo_url))) ->
         exists o rp,
           fst (parse_repo_url repo_url) = Some (o, rp)
           /\ (In url (requests (snd (discover w (save_api_url o rp))))
               \/ exists all_files item,
                   fst (discover w (save_api_url o rp)) = Ok all_files
                   /\ In item all_files /\ url = download_url item))
  /\ (forall randbelow repo_url subdir_path,
         requests (snd (get_random_file_link_from_subdir w randbelow repo_url
                                                         subdir_path))
         = match fst (parse_repo_url repo_url) with
           | None => []
           | Some (o, rp) =>
               ["https://api.github.com/repos/" ^ o ^ "/" ^ rp
                ^ "/contents/" ^ subdir_path]
           end)
  /\ (exists ok files tr,
         get_contents_recursive w fuel username repo_name start []
         = Some (ok, files, tr)
         /\ (forall q k,
                reach w username repo_name start q k ->
                In (export_api_url username repo_name q) (requests tr))
         /\ (forall q k row,
                reach w username repo_name start q k ->
                row_at w username repo_name q row -> In row files)).
Proof.
  split; [|split; [|split; [|split]]].
  - intros api_url d1 d2. destruct (discover_spec w api_url) as (Hf & Hr & _).
    split.
    + rewrite Hr. unfold listed, max_depth. cbn [walk_dirs].
      now rewrite app_nil_r.
    + rewrite Hf. unfold found, max_depth, d2, d1, listing.
      destruct (json_at w api_url); [|reflexivity].
      cbn [walk_files]. now rewrite app_nil_r.
  - intros randbelow repo_url.
    apply (get_random_file_link_trace w randbelow repo_url).
  - intros randbelow repo_url.
    apply (fetch_random_file_trace w randbelow repo_url).
  - intros randbelow repo_url subdir_path.
    unfold get_random_file_link_from_subdir.
    destruct (parse_repo_url repo_url) as [[[o rp]|] tr0] eqn:Hp.
    + apply parse_repo_url_events in Hp as ->. cbn [fst app].
      destruct (json_at w _) as [c|e]; [|reflexivity].
      destruct (report_link_trace
                  randbelow ("No files found in the subdirectory: " ^ subdir_path)
                  (files_only c [])) as (Hr & _).
      destruct (report_link randbelow _ (files_only c [])) as [r tr'].
      cbn [snd requests] in *. now rewrite Hr.
    + unfold parse_repo_url in Hp.
      destruct (Nat.ltb (List.length (path_parts repo_url)) 2);
        inversion Hp; subst; reflexivity.
  - destruct (get_contents_recursive_total w username repo_name fuel n start []
                                           Hfit Hfuel)
      as ([[ok files] tr] & Hrun).
    exists ok, files, tr. split; [exact Hrun|].
    apply get_contents_recursive_ok in Hrun as (new & -> & (W1 & W2 & _)).
    split.
    + intros q k Hr. apply W2. eauto.
    + intros q k row Hr Hat. apply W1. eauto.
Qed.

Lemma C5_descent_depth_witness :
  fits Sample.deep "alice" "proj" 4 "" = true
  /\ 4 < 5
  /\ exists ok files tr,
      get_contents_recursive Sample.deep 5 "alice" "proj" "" []
      = Some (ok, files, tr)
      /\ (forall q k,
             reach Sample.deep "alice" "proj" "" q k ->
             In (export_api_url "alice" "proj" q) (requests tr))
      /\ (forall q k row,
             reach Sample.deep "alice" "proj" "" q k ->
             row_at Sample.deep "alice" "proj" q row -> In row files).
Proof.
  split; [reflexivity|]. split; [lia|].
  apply (C5_descent_depth Sample.deep "alice" "proj" 4 5 "" eq_refl).
  lia.
Defined.

(** Supporting run: the export walk finds the file four levels down; the
    rows come in the order of the depth-first visit. *)
Lemma export_reaches_bottom_sample :
  exists ok tr,
    get_contents_recursive Sample.deep 5 "alice" "proj" "" []
    = Some (ok,
            [mkRow "/top.md" "https://github.com/alice/proj/blob/main/top.md";
             mkRow "l1/l2/l3/l4/four.md"
                   "https://github.com/alice/proj/blob/main/l1/l2/l3/l4/four.md";
             mkRow "l1/l2/l3/three.md"
                   "https://github.com/alice/proj/blob/main/l1/l2/l3/three.md";
             mkRow "l1/l2/two.md"
                   "https://github.com/alice/proj/blob/main/l1/l2/two.md"],
            tr).
Proof. eexists. eexists. vm_compute. reflexivity. Qed.

(** ** C6: nothing found, nothing written *)

Lemma file_text_app (file : string) (a b : list event) (cur : option string) :
  file_text file (a ++ b) cur = file_text file b (file_text file a cur).
Proof.
  revert cur. induction a as [|e a IH]; intros cur; [reflexivity|].
  destruct e; cbn [app file_text]; apply IH.
Qed.

Lemma file_text_no_fs (file : string) (tr : list event) (cur : option string) :
  existsb is_fs_event tr = false -> file_text file tr cur = cur.
Proof.
  revert cur. induction tr as [|e tr IH]; intros cur H; [reflexivity|].
  destruct e; cbn in H; try discriminate; cbn [file_text]; auto.
Qed.

(** C6.  When the walk ends with no file, the link flows return [None], the
    save flow returns the pair of [None]s and its entry point prints the
    failure line without calling [save_file], and the exporter returns
    [False] before opening its output file: no flow performs a filesystem
    effect, and the output file is not created. *)
Theorem C6_empty_collection (w : remote) (randbelow : nat -> nat) :
  (forall repo_url o rp,
      parse_repo_url repo_url = (Some (o, rp), []) ->
      fst (discover w (link_api_url o rp)) = Ok [] ->
      get_random_file_link w randbelow repo_url
      = (None, snd (discover w (link_api_url o rp))
               ++ [Print "No files found in the repository."])
      /\ existsb is_fs_event (snd (get_random_file_link w randbelow repo_url))
         = false)
  /\ (forall repo_url subdir_path o rp contents,
         parse_repo_url repo_url = (Some (o, rp), []) ->
         json_at w ("https://api.github.com/repos/" ^ o ^ "/" ^ rp
                    ^ "/contents/" ^ subdir_path) = Ok contents ->
         files_only contents [] = [] ->
         get_random_file_link_from_subdir w randbelow repo_url subdir_path
         = (None,
            [Get ("https://api.github.com/repos/" ^ o ^ "/" ^ rp
                  ^ "/contents/" ^ subdir_path);
             Print ("No files found in the subdirectory: " ^ subdir_path)]))
  /\ (forall repo_url o rp,
         parse_repo_url repo_url = (Some (o, rp), []) ->
         fst (discover w (save_api_url o rp)) = Ok [] ->
         fetch_random_file w randbelow repo_url
         = ((None, None),
            snd (discover w (save_api_url o rp))
            ++ [Print "No files found in the repository."]))
  /\ (fst (discover w (save_api_url "krutikpatel" "tech-revision-notes")) = Ok [] ->
      main_save w randbelow
      = snd (discover w (save_api_url "krutikpatel" "tech-revision-notes"))
        ++ [Print "No files found in the repository.";
            Print "Failed to fetch a random file."]
      /\ existsb is_fs_event (main_save w randbelow) = false)
  /\ (forall fuel repo_url subdir_path output_csv o rp ok tr0,
         parse_repo_url repo_url = (Some (o, rp), []) ->
         get_contents_recursive w fuel o rp subdir_path [] = Some (ok, [], tr0) ->
         let tr := tr0 ++ [Print ("No files found in the subdirectory tree starting from: "
                                  ^ subdir_path)] in
         get_files_from_subdir w fuel repo_url subdir_path output_csv
         = Some (false, tr)
         /\ existsb is_fs_event tr = false
         /\ file_text output_csv tr None = None).
Proof.
  assert (Hsave : forall repo_url o rp,
             parse_repo_url repo_url = (Some (o, rp), []) ->
             fst (discover w (save_api_url o rp)) = Ok [] ->
             fetch_random_file w randbelow repo_url
             = ((None, None),
                snd (discover w (save_api_url o rp))
                ++ [Print "No files found in the repository."])).
  { intros repo_url o rp Hp Hd. unfold fetch_random_file. rewrite Hp.
    destruct (discover w (save_api_url o rp)) as [r tr]. cbn [fst snd] in *.
    subst r. reflexivity. }
  split; [|split; [|split; [|split]]].
  - intros repo_url o rp Hp Hd. split.
    + unfold get_random_file_link. rewrite Hp.
      destruct (discover w (link_api_url o rp)) as [r tr]. cbn [fst snd] in *.
      subst r. reflexivity.
    + apply (get_random_file_link_trace w randbelow repo_url).
  - intros repo_url subdir_path o rp contents Hp J Hf.
    unfold get_random_file_link_from_subdir. rewrite Hp, J, Hf. reflexivity.
  - exact Hsave.
  - intros Hd. unfold main_save. cbv zeta.
    rewrite (Hsave "https://github.com/krutikpatel/tech-revision-notes/tree/main/SpringFramework"
                   "krutikpatel" "tech-revision-notes" eq_refl Hd).
    split; [now rewrite <- app_assoc|].
    destruct (discover_spec w (save_api_url "krutikpatel" "tech-revision-notes"))
      as (_ & _ & _ & Hfs).
    now rewrite !existsb_fs_app, Hfs.
  - intros fuel repo_url subdir_path output_csv o rp ok tr0 Hp Hrun tr.
    assert (Hfs : existsb is_fs_event tr = false).
    { apply get_contents_recursive_ok in Hrun as (new & _ & (_ & _ & _ & Hfs)).
      unfold tr. now rewrite existsb_fs_app, Hfs. }
    split; [|split; [exact Hfs|now apply file_text_no_fs]].
    unfold get_files_from_subdir. rewrite Hp, Hrun. reflexivity.
Qed.

Lemma C6_empty_collection_witness :
  fst (discover Sample.nothing (save_api_url "krutikpatel" "tech-revision-notes"))
  = Ok []
  /\ existsb is_fs_event (main_save Sample.nothing (Sample.draws 0)) = false
  /\ get_files_from_subdir Sample.nothing 1 Sample.repo_url "docs" "out.csv"
     = Some (false,
             [Get "https://api.github.com/repos/alice/proj/contents/docs";
              Print "No files found in the subdirectory tree starting from: docs"]).
Proof.
  pose proof (C6_empty_collection Sample.nothing (Sample.draws 0))
    as (_ & _ & _ & Hmain & Hexp).
  split; [reflexivity|]. split.
  - apply Hmain. reflexivity.
  - apply (Hexp 1 Sample.repo_url "docs" "out.csv" "alice" "proj" true
                [Get "https://api.github.com/repos/alice/proj/contents/docs"]);
      reflexivity.
Defined.

(** ** C7: reading the exported file back *)

Lemma file_text_rows (file : string) (rows : list Row) (s : string) :
  file_text file
            (map (fun r => FWrite file (Csv.writerow (dict_row r))) rows)
            (Some s)
  = Some (s ^ Csv.csv_text (map dict_row rows)).
Proof.
  revert s. induction rows as [|r rows IH]; intros s.
  - simpl. now rewrite append_nil_r.
  - cbn [map file_text Csv.csv_text]. rewrite String.eqb_refl.
    cbn [option_map]. rewrite IH, append_assoc. reflexivity.
Qed.

(** Whatever the file held, after [write_csv] it holds the header record
    and one record per row, in order. *)
Lemma write_csv_text (output_csv : string) (all_files : list Row)
      (cur : option string) :
  file_text output_csv (write_csv output_csv all_files) cur
  = Some (Csv.csv_text (fieldnames :: map dict_row all_files)).
Proof.
  unfold write_csv. cbn [file_text]. rewrite String.eqb_refl.
  cbn [option_map append]. rewrite file_text_app, file_text_rows.
  reflexivity.
Qed.

(** Supporting run: names with a comma are quoted by the writer and read
    back unchanged. *)
Lemma csv_round_trip_sample :
  Csv.read (Csv.csv_text [fieldnames;
                          ["SpringFramework/A.md"; "https://github.com/o/r/A.md"];
                          ["notes/a,b.md"; "https://github.com/o/r/a,b.md"];
                          [""; ""]])
  = [["articleName"; "articleUrl"];
     ["SpringFramework/A.md"; "https://github.com/o/r/A.md"];
     ["notes/a,b.md"; "https://github.com/o/r/a,b.md"];
     [""; ""]].
Proof. reflexivity. Qed.

(** C7.  When the exporter succeeds, the text it left in the output file,
    read by the CSV reader, is the header [articleName, articleUrl]
    followed by one record per collected row, in the order of the
    collection, each made of the row's path-qualified name and of its view
    link; the collected rows are those of the files of the directories
    reached by the walk. *)
Theorem C7_csv_round_trip
        (w : remote) (fuel : nat) (repo_url subdir_path output_csv : string)
        (tr : list event)
        (H : get_files_from_subdir w fuel repo_url subdir_path output_csv
             = Some (true, tr)) :
  exists username repo_name ok all_files tr0 text,
    fst (parse_repo_url repo_url) = Some (username, repo_name)
    /\ get_contents_recursive w fuel username repo_name subdir_path []
       = Some (ok, all_files, tr0)
    /\ (forall row,
           In row all_files
           <-> exists q k, reach w username repo_name subdir_path q k
                           /\ row_at w username repo_name q row)
    /\ file_text output_csv tr None = Some text
    /\ Csv.read text
       = ["articleName"; "articleUrl"]
           :: map (fun file => [articleName file; articleUrl file]) all_files.
Proof.
  unfold get_files_from_subdir in H.
  destruct (parse_repo_url repo_url) as [[[u r]|] tr1] eqn:Hp;
    [|inversion H].
  apply parse_repo_url_events in Hp as Htr1. subst tr1.
  destruct (get_contents_recursive w fuel u r subdir_path [])
    as [[[ok fs] tr0]|] eqn:Hrun; [|discriminate].
  destruct fs as [|f fs]; [inversion H|].
  inversion H; subst; clear H.
  exists u, r, ok, (f :: fs), tr0,
    (Csv.csv_text (fieldnames :: map dict_row (f :: fs))).
  split; [reflexivity|]. split; [exact Hrun|].
  pose proof (get_contents_recursive_ok _ _ _ _ _ _ _ _ _ Hrun)
    as (new & E & (W1 & _ & _ & Hfs)).
  cbn [app] in E. subst new.
  split; [exact W1|]. split.
  - cbn [app]. rewrite file_text_app, (file_text_no_fs _ _ _ Hfs).
    apply write_csv_text.
  - apply read_csv_text.
Qed.

Lemma C7_csv_round_trip_witness :
  exists tr,
    get_files_from_subdir Sample.one_broken 3 Sample.repo_url "" "github_files.csv"
    = Some (true, tr)
    /\ exists username repo_name ok all_files tr0 text,
        fst (parse_repo_url Sample.repo_url) = Some (username, repo_name)
        /\ get_contents_recursive Sample.one_broken 3 username repo_name "" []
           = Some (ok, all_files, tr0)
        /\ (forall row,
               In row all_files
               <-> exists q k, reach Sample.one_broken username repo_name "" q k
                               /\ row_at Sample.one_broken username repo_name q row)
        /\ file_text "github_files.csv" tr None = Some text
        /\ Csv.read text
           = ["articleName"; "articleUrl"]
               :: map (fun file => [articleName file; articleUrl file]) all_files.
Proof.
  eexists. split; [vm_compute; reflexivity|].
  apply (C7_csv_round_trip Sample.one_broken 3 Sample.repo_url ""
                           "github_files.csv").
  vm_compute. reflexivity.
Defined.

(** Supporting run: the records read back from the file of that export. *)
Lemma csv_export_sample :
  exists tr text,
    get_files_from_subdir Sample.one_broken 3 Sample.repo_url "" "github_files.csv"
    = Some (true, tr)
    /\ file_text "github_files.csv" tr None = Some text
    /\ Csv.read text
       = [["articleName"; "articleUrl"];
          ["/README.md"; "https://github.com/alice/proj/blob/main/README.md"];
          ["docs/guide.md";
           "https://github.com/alice/proj/blob/main/docs/guide.md"]].
Proof.
  eexists. eexists. split; [vm_compute; reflexivity|].
  split; vm_compute; reflexivity.
Qed.

(** ** C8: the Selector *)

Lemma nth_error_all {A : Type} (l : list A) :
  map (fun i => nth_error l i) (List.seq 0 (List.length l)) = map Some l.
Proof.
  induction l as [|a l IH]; [reflexivity|].
  cbn [List.length List.seq map nth_error]. f_equal.
  rewrite <- seq_shift, map_map. exact IH.
Qed.

Lemma random_choice_drawing {A : Type} (i : nat) (seq : list A) (x : A) :
  nth_error seq i = Some x -> random_choice (drawing i) seq = Ok x.
Proof. intros H. rewrite random_choice_spec. unfold drawing. now rewrite H. Qed.

Lemma get_random_file_link_draws (w : remote) (randbelow : nat -> nat)
      (repo_url : string) (n : nat) :
  In (RandBelow n) (snd (get_random_file_link w randbelow repo_url)) -> 0 < n.
Proof.
  unfold get_random_file_link.
  destruct (parse_repo_url repo_url) as [[[o rp]|] tr0] eqn:Hp.
  - apply parse_repo_url_events in Hp as ->. cbn [app].
    pose proof (discover_quiet w (link_api_url o rp)) as Hq.
    destruct (discover w (link_api_url o rp)) as [[fs|e] tr]; cbn [snd] in *.
    + destruct (report_link_trace randbelow "No files found in the repository." fs)
        as (_ & _ & Hn).
      destruct (report_link randbelow _ fs) as [r tr']. cbn [snd] in *.
      intros Hin. apply in_app_or in Hin as [Hin|Hin].
      * now apply quiet_no_draw in Hin.
      * now apply Hn in Hin.
    + intros Hin. apply in_app_or in Hin as [Hin|[Hin|F]];
        [now apply quiet_no_draw in Hin|discriminate|destruct F].
  - unfold parse_repo_url in Hp.
    destruct (Nat.ltb (List.length (path_parts repo_url)) 2);
      inversion Hp; subst; cbn; intros [Hin|F]; [discriminate|destruct F].
Qed.

Lemma get_random_file_link_from_subdir_draws (w : remote)
      (randbelow : nat -> nat) (repo_url subdir_path : string) (n : nat) :
  In (RandBelow n)
     (snd (get_random_file_link_from_subdir w randbelow repo_url subdir_path)) ->
  0 < n.
Proof.
  unfold get_random_file_link_from_subdir.
  destruct (parse_repo_url repo_url) as [[[o rp]|] tr0] eqn:Hp.
  - apply parse_repo_url_events in Hp as ->. cbn [app].
    destruct (json_at w _) as [c|e].
    + destruct (report_link_trace
                  randbelow ("No files found in the subdirectory: " ^ subdir_path)
                  (files_only c [])) as (_ & _ & Hn).
      destruct (report_link randbelow _ (files_only c [])) as [r tr'].
      cbn [snd] in *. intros [Hin|Hin]; [discriminate|]. now apply Hn in Hin.
    + cbn. intros [Hin|[Hin|F]]; [discriminate|discriminate|destruct F].
  - unfold parse_repo_url in Hp.
    destruct (Nat.ltb (List.length (path_parts repo_url)) 2);
      inversion Hp; subst; cbn; intros [Hin|F]; [discriminate|destruct F].
Qed.

(** C8.  On a non-empty collection the Selector returns the element at the
    index the generator draws below the length; the draws 0 to k-1, which
    the generator makes with equal probability, return the k elements in
    order, one draw for each position, so that every element comes out for
    some state of the generator and two different elements come out for
    two different draws.  In every flow the generator is only asked for an
    index below a positive length: with no file the flow reports it and
    returns its failure value without a draw. *)
Theorem C8_selector {A : Type} (seq : list A) (Hne : seq <> []) :
  (forall randbelow,
      randbelow (List.length seq) < List.length seq ->
      exists x, random_choice randbelow seq = Ok x
                /\ nth_error seq (randbelow (List.length seq)) = Some x
                /\ In x seq)
  /\ map (fun i => random_choice (drawing i) seq) (List.seq 0 (List.length seq))
     = map Ok seq
  /\ (forall x, In x seq ->
                exists i, i < List.length seq
                          /\ random_choice (drawing i) seq = Ok x)
  /\ (forall x y, In x seq -> In y seq -> x <> y ->
                  exists i j, random_choice (drawing i) seq = Ok x
                              /\ random_choice (drawing j) seq = Ok y
                              /\ random_choice (drawing i) seq
                                 <> random_choice (drawing j) seq)
  /\ (forall w randbelow repo_url subdir_path n,
         (In (RandBelow n) (snd (get_random_file_link w randbelow repo_url))
          -> 0 < n)
         /\ (In (RandBelow n) (snd (fetch_random_file w randbelow repo_url))
             -> 0 < n)
         /\ (In (RandBelow n)
                (snd (get_random_file_link_from_subdir w randbelow repo_url
                                                       subdir_path))
             -> 0 < n))
  /\ (forall randbelow,
         report_link randbelow "No files found in the repository." []
         = (None, [Print "No files found in the repository."]))
  /\ (forall w randbelow repo_url o rp all_files item,
         parse_repo_url repo_url = (Some (o, rp), []) ->
         fst (discover w (link_api_url o rp)) = Ok all_files ->
         nth_error all_files (randbelow (List.length all_files)) = Some item ->
         fst (get_random_file_link w randbelow repo_url) = Some (html_url item)).
Proof.
  assert (Hpick : forall x, In x seq ->
                            exists i, i < List.length seq
                                      /\ random_choice (drawing i) seq = Ok x).
  { intros x Hin. apply In_nth_error in Hin as [i Hi]. exists i. split.
    - apply nth_error_Some. congruence.
    - now apply random_choice_drawing. }
  split; [|split; [|split; [|split; [|split; [|split]]]]].
  - intros randbelow Hlt. rewrite random_choice_spec.
    destruct (nth_error seq (randbelow (List.length seq))) as [x|] eqn:N.
    + exists x. repeat split. eapply nth_error_In; eauto.
    + apply nth_error_None in N. lia.
  - set (g := fun o : option A =>
                match o with
                | Some x => Ok x
                | None => Raise "list index out of range"
                end).
    transitivity (map g (map (fun i => nth_error seq i)
                             (List.seq 0 (List.length seq)))).
    + rewrite map_map. apply map_ext_in. intros i Hi.
      rewrite random_choice_spec. unfold drawing, g.
      destruct (nth_error seq i) eqn:N; [reflexivity|].
      destruct seq; [congruence|reflexivity].
    + rewrite nth_error_all, map_map. reflexivity.
  - exact Hpick.
  - intros x y Hx Hy Hxy.
    destruct (Hpick x Hx) as (i & _ & Hi). destruct (Hpick y Hy) as (j & _ & Hj).
    exists i, j. repeat split; auto. rewrite Hi, Hj. congruence.
  - intros w randbelow repo_url subdir_path n. split; [|split].
    + apply get_random_file_link_draws.
    + apply (fetch_random_file_trace w randbelow repo_url).
    + apply get_random_file_link_from_subdir_draws.
  - reflexivity.
  - intros w randbelow repo_url o rp all_files item Hp Hd Hn.
    unfold get_random_file_link. rewrite Hp.
    destruct (discover w (link_api_url o rp)) as [r tr]. cbn [fst] in Hd.
    subst r. destruct all_files as [|f fs].
    + simpl in Hn. destruct (randbelow 0); discriminate.
    + unfold report_link. rewrite random_choice_spec, Hn. reflexivity.
Qed.

Lemma C8_selector_witness :
  map (fun i => random_choice (drawing i) ["a.md"; "b.md"; "c.md"]) [0; 1; 2]
  = [Ok "a.md"; Ok "b.md"; Ok "c.md"].
Proof.
  apply (C8_selector ["a.md"; "b.md"; "c.md"]). discriminate.
Defined.

(** ** C9: an empty body is not saved *)

(** C9.  In the save flow, when a file is chosen and its content request
    succeeds with the empty text, [fetch_random_file] announces the
    download and returns the name with the empty content; the entry point
    then prints the failed-to-fetch line and performs no filesystem effect:
    [save_file] is not called. *)
Theorem C9_empty_body_not_saved
        (w : remote) (randbelow : nat -> nat)
        (all_files : list Item) (item : Item)
        (Hd : fst (discover w (save_api_url "krutikpatel" "tech-revision-notes"))
              = Ok all_files)
        (Hc : random_choice randbelow all_files = Ok item)
        (Ht : text_at w (download_url item) = Ok "") :
  let walk := snd (discover w (save_api_url "krutikpatel" "tech-revision-notes")) in
  let fetch :=
    walk ++ [RandBelow (List.length all_files);
             Get (download_url item);
             Print ("Successfully downloaded: " ^ name item)] in
  fetch_random_file
    w randbelow
    "https://github.com/krutikpatel/tech-revision-notes/tree/main/SpringFramework"
  = ((Some (name item), Some ""), fetch)
  /\ main_save w randbelow = fetch ++ [Print "Failed to fetch a random file."]
  /\ existsb is_fs_event (main_save w randbelow) = false
  /\ (forall file data, ~ In (FWrite file data) (main_save w randbelow)).
Proof.
  intros walk fetch.
  assert (Hf : fetch_random_file
                 w randbelow
                 "https://github.com/krutikpatel/tech-revision-notes/tree/main/SpringFramework"
               = ((Some (name item), Some ""), fetch)).
  { unfold fetch_random_file, fetch, walk.
    change (parse_repo_url _)
      with (Some ("krutikpatel", "tech-revision-notes"), @nil event).
    cbv iota beta.
    destruct (discover w (save_api_url "krutikpatel" "tech-revision-notes"))
      as [r tr].
    cbn [fst snd] in *. subst r.
    destruct all_files as [|f fs]; [discriminate|].
    rewrite Hc, Ht. reflexivity. }
  assert (Hm : main_save w randbelow
               = fetch ++ [Print "Failed to fetch a random file."]).
  { unfold main_save. cbv zeta. rewrite Hf. now destruct (name item). }
  assert (Hfs : existsb is_fs_event (main_save w randbelow) = false).
  { rewrite Hm. unfold fetch, walk. rewrite !existsb_fs_app.
    destruct (discover_spec w (save_api_url "krutikpatel" "tech-revision-notes"))
      as (_ & _ & _ & ->).
    reflexivity. }
  repeat split; auto.
  intros file data Hin.
  assert (existsb is_fs_event (main_save w randbelow) = true)
    by (apply existsb_exists; exists (FWrite file data); auto).
  congruence.
Qed.

Lemma C9_empty_body_not_saved_witness :
  main_save Sample.empty_body (Sample.draws 0)
  = [Get Sample.page;
     RandBelow 1;
     Get "https://raw.githubusercontent.com/alice/proj/main/empty.txt";
     Print "Successfully downloaded: empty.txt";
     Print "Failed to fetch a random file."].
Proof.
  apply (C9_empty_body_not_saved
           Sample.empty_body (Sample.draws 0)
           [Sample.file_item "empty.txt" "empty.txt"]
           (Sample.file_item "empty.txt" "empty.txt")
           eq_refl eq_refl eq_refl).
Defined.

(** ** C10: the leading slash of [articleName] *)

(** C10.  Every row of a finished export walk is named by the path of the
    listed directory, a slash and the file's name, with no test on the
    path; the test on the empty path is made for directories only, whose
    child path is then the bare name.  So for a walk started at the empty
    path, each file listed at the start has a row whose name is a slash
    followed by the file's name. *)
Theorem C10_article_name_leading_slash
        (w : remote) (username repo_name : string) (fuel : nat)
        (ok : bool) (files : list Row) (tr : list event)
        (H : get_contents_recursive w fuel username repo_name "" []
             = Some (ok, files, tr)) :
  (forall row,
      In row files ->
      exists q k item,
        reach w username repo_name "" q k
        /\ In item (listing w (export_api_url username repo_name q))
        /\ is_file item = true
        /\ articleName row = q ^ "/" ^ name item
        /\ articleUrl row = html_url item)
  /\ (forall item,
         In item (listing w (export_api_url username repo_name "")) ->
         is_file item = true ->
         In (mkRow (String "/" (name item)) (html_url item)) files)
  /\ (forall item, subdirectory_path "" item = name item).
Proof.
  apply get_contents_recursive_ok in H as (new & E & (W & _)).
  cbn [app] in E. subst new. split; [|split].
  - intros row Hin. apply W in Hin as (q & k & Hr & (c & item & J & Hi & F & ->)).
    exists q, k, item. unfold listing. rewrite J. auto.
  - intros item Hin F. apply W. exists "", 0. split; [constructor|].
    unfold listing in Hin.
    destruct (json_at w (export_api_url username repo_name "")) as [c|e] eqn:J;
      [|destruct Hin].
    exists c, item. auto.
  - reflexivity.
Qed.

Lemma C10_article_name_leading_slash_witness :
  exists ok files tr,
    get_contents_recursive Sample.one_broken 3 "alice" "proj" "" []
    = Some (ok, files, tr)
    /\ In (mkRow "/README.md" "https://github.com/alice/proj/blob/main/README.md")
          files.
Proof.
  eexists. eexists. eexists. split; [vm_compute; reflexivity|].
  destruct (C10_article_name_leading_slash Sample.one_broken "alice" "proj" 3
                                           _ _ _ eq_refl)
    as (_ & Hroot & _).
  apply (Hroot (Sample.file_item "README.md" "README.md")).
  - vm_compute. auto.
  - reflexivity.
Defined.

(* ================================================================= *)
(** * Further properties of the scripts *)

(** ** Files found by the bounded walker *)

Lemma files_in_are_files (contents : list Item) :
  Forall (fun item => is_file item = true) (files_in contents).
Proof.
  apply Forall_forall. intros x Hx. apply filter_In in Hx. tauto.
Qed.

Lemma files_of_are_files (w : remote) (api_url : string) (ds : list string) :
  Forall (fun item => is_file item = true) (files_of w api_url ds).
Proof.
  unfold files_of. induction ds as [|d ds IH]; cbn [flat_map]; [constructor|].
  apply Forall_app. split; [apply files_in_are_files|exact IH].
Qed.

Lemma walk_files_are_files (w : remote) (api_url : string) (n : nat) :
  forall ds, Forall (fun item => is_file item = true) (walk_files w api_url n ds).
Proof.
  induction n as [|k IH]; intros ds; cbn [walk_files]; [constructor|].
  apply Forall_app. split; [apply files_of_are_files|apply IH].
Qed.

Lemma discover_files (w : remote) (api_url : string) (all_files : list Item) :
  fst (discover w api_url) = Ok all_files ->
  Forall (fun item => is_file item = true) all_files.
Proof.
  destruct (discover_spec w api_url) as (-> & _). unfold found.
  destruct (json_at w api_url) as [c|e]; intros H; [|discriminate].
  assert (E : all_files
              = files_in c ++ walk_files w api_url max_depth (dirs_in c))
    by congruence.
  rewrite E. apply Forall_app.
  split; [apply files_in_are_files|apply walk_files_are_files].
Qed.

(** ** The save flow *)

(** The return of [fetch_random_file] when a file is chosen and its
    content request succeeds. *)
Lemma fetch_random_file_success
      (w : remote) (randbelow : nat -> nat) (repo_url o rp : string)
      (all_files : list Item) (item : Item) (body : string) :
  parse_repo_url repo_url = (Some (o, rp), []) ->
  fst (discover w (save_api_url o rp)) = Ok all_files ->
  random_choice randbelow all_files = Ok item ->
  text_at w (download_url item) = Ok body ->
  fetch_random_file w randbelow repo_url
  = ((Some (name item), Some body),
     snd (discover w (save_api_url o rp))
     ++ [RandBelow (List.length all_files);
         Get (download_url item);
         Print ("Successfully downloaded: " ^ name item)]).
Proof.
  intros Hp Hd Hc Ht. unfold fetch_random_file. rewrite Hp.
  destruct (discover w (save_api_url o rp)) as [r tr].
  cbn [fst snd] in *. subst r.
  destruct all_files as [|f fs]; [discriminate|].
  rewrite Hc, Ht. reflexivity.
Qed.




(** X3.  The entry point of the save flow touches the filesystem exactly
    when [fetch_random_file] returned a non-empty name together with a
    non-empty content: after an invalid URL, a failed listing, an empty
    collection, a failed download or an empty name or body, no directory
    is created and no file is opened. *)
Theorem main_save_touches_disk_iff (w : remote) (randbelow : nat -> nat) :
  existsb is_fs_event (main_save w randbelow) = true
  <-> exists n c,
      fst (fetch_random_file
             w randbelow
             "https://github.com/krutikpatel/tech-revision-notes/tree/main/SpringFramework")
      = (Some n, Some c)
      /\ n <> "" /\ c <> "".
Proof.
  pose proof (fetch_random_file_trace
                w randbelow
                "https://github.com/krutikpatel/tech-revision-notes/tree/main/SpringFramework")
    as (_ & Hfs & _).
  unfold main_save. cbv zeta.
  destruct (fetch_random_file w randbelow _) as [[fn fc] tr]. cbn [fst snd] in *.
  split.
  - intros H.
    destruct fn as [[|a n]|]; destruct fc as [[|b c]|];
      try (rewrite existsb_fs_app, Hfs in H; discriminate).
    exists (String a n), (String b c). repeat split; discriminate.
  - intros (n & c & E & Hn & Hc). inversion E; subst.
    destruct n as [|a n]; [congruence|]. destruct c as [|b c]; [congruence|].
    unfold save_file. rewrite existsb_fs_app, Hfs. reflexivity.
Qed.

(** X5.  [fetch_random_file] never returns half a result, and what it
    returns comes from the remote: the name is that of the entry of type
    file found by the walk at the index the generator drew, and the
    content is the text answered for that entry's download URL. *)
Theorem fetch_random_file_result
        (w : remote) (randbelow : nat -> nat) (repo_url : string) :
  fst (fetch_random_file w randbelow repo_url) = (None, None)
  \/ exists o rp all_files item body,
      parse_repo_url repo_url = (Some (o, rp), [])
      /\ fst (discover w (save_api_url o rp)) = Ok all_files
      /\ nth_error all_files (randbelow (List.length all_files)) = Some item
      /\ is_file item = true
      /\ text_at w (download_url item) = Ok body
      /\ fst (fetch_random_file w randbelow repo_url)
         = (Some (name item), Some body).
Proof.
  unfold fetch_random_file.
  destruct (parse_repo_url repo_url) as [[[o rp]|] tr0] eqn:Hp; [|now left].
  apply parse_repo_url_events in Hp as Htr. subst tr0.
  pose proof (discover_files w (save_api_url o rp)) as Hfiles.
  destruct (discover w (save_api_url o rp)) as [[fs|e] tr] eqn:D; [|now left].
  cbn [fst] in Hfiles. specialize (Hfiles fs eq_refl).
  destruct fs as [|f fs]; [now left|].
  rewrite random_choice_spec.
  destruct (nth_error (f :: fs) (randbelow (List.length (f :: fs))))
    as [item|] eqn:N; [|now left].
  destruct (text_at w (download_url item)) as [body|e] eqn:T; [|now left].
  right. exists o, rp, (f :: fs), item, body.
  split; [reflexivity|]. split; [now rewrite D|]. split; [exact N|].
  split; [|split; [exact T|reflexivity]].
  rewrite Forall_forall in Hfiles. apply Hfiles. eapply nth_error_In; eauto.
Qed.

(** ** The link flows *)

Lemma report_link_result (randbelow : nat -> nat) (msg : string)
      (all_files : list Item) :
  fst (report_link randbelow msg all_files) = None
  \/ exists item,
      nth_error all_files (randbelow (List.length all_files)) = Some item
      /\ report_link randbelow msg all_files
         = (Some (html_url item),
            [RandBelow (List.length all_files);
             Print ("Random file selected: " ^ name item);
             Print ("File URL: " ^ html_url item)]).
Proof.
  unfold report_link. destruct all_files as [|f fs]; [now left|].
  rewrite random_choice_spec.
  destruct (nth_error (f :: fs) (randbelow (List.length (f :: fs))))
    as [item|] eqn:N; [|now left].
  right. exists item. split; reflexivity.
Qed.

(** X4.  The link flow returns nothing or the [html_url] of an entry of
    type file found by the bounded walk, the one at the index the generator
    drew; the last line it prints then shows the very URL it returns.  It
    never returns the link of a directory. *)
Theorem get_random_file_link_result
        (w : remote) (randbelow : nat -> nat) (repo_url : string) :
  fst (get_random_file_link w randbelow repo_url) = None
  \/ exists o rp all_files item,
      parse_repo_url repo_url = (Some (o, rp), [])
      /\ fst (discover w (link_api_url o rp)) = Ok all_files
      /\ nth_error all_files (randbelow (List.length all_files)) = Some item
      /\ is_file item = true
      /\ fst (get_random_file_link w randbelow repo_url) = Some (html_url item)
      /\ last (snd (get_random_file_link w randbelow repo_url)) (Print "")
         = Print ("File URL: " ^ html_url item).
Proof.
  unfold get_random_file_link.
  destruct (parse_repo_url repo_url) as [[[o rp]|] tr0] eqn:Hp; [|now left].
  apply parse_repo_url_events in Hp as Htr. subst tr0.
  pose proof (discover_files w (link_api_url o rp)) as Hfiles.
  destruct (discover w (link_api_url o rp)) as [[fs|e] tr] eqn:D; [|now left].
  cbn [fst] in Hfiles. specialize (Hfiles fs eq_refl).
  destruct (report_link_result randbelow "No files found in the repository." fs)
    as [Hn|(item & N & Hr)].
  - left. destruct (report_link randbelow _ fs). cbn [fst] in *. exact Hn.
  - right. rewrite Hr. exists o, rp, fs, item.
    split; [reflexivity|]. split; [now rewrite D|]. split; [exact N|].
    split; [|split; [reflexivity|]].
    + rewrite Forall_forall in Hfiles. apply Hfiles. eapply nth_error_In; eauto.
    + cbn [snd app].
      change (tr ++ [RandBelow (List.length fs);
                     Print ("Random file selected: " ^ name item);
                     Print ("File URL: " ^ html_url item)])
        with (tr ++ [RandBelow (List.length fs);
                     Print ("Random file selected: " ^ name item)]
                 ++ [Print ("File URL: " ^ html_url item)]).
      rewrite app_assoc. apply last_last.
Qed.

Lemma files_only_spec (contents : list Item) (all_files : list Item) :
  files_only contents all_files = all_files ++ files_in contents.
Proof.
  revert all_files. induction contents as [|item rest IH]; intros fs.
  - simpl. now rewrite app_nil_r.
  - cbn [files_only]. unfold files_in in *. cbn [filter].
    fold (is_file item). destruct (is_file item); rewrite IH.
    + now rewrite <- app_assoc.
    + reflexivity.
Qed.

(** X6.  The subdirectory flow chooses among the entries of type file of
    the one listing it requests: what it returns is the [html_url] of such
    an entry of that listing, at the index drawn among the files in listing
    order; the directories of the listing are neither entered nor
    returned. *)
Theorem get_random_file_link_from_subdir_result
        (w : remote) (randbelow : nat -> nat) (repo_url subdir_path : string) :
  fst (get_random_file_link_from_subdir w randbelow repo_url subdir_path) = None
  \/ exists o rp contents item,
      parse_repo_url repo_url = (Some (o, rp), [])
      /\ json_at w ("https://api.github.com/repos/" ^ o ^ "/" ^ rp
                    ^ "/contents/" ^ subdir_path) = Ok contents
      /\ nth_error (files_in contents)
                   (randbelow (List.length (files_in contents))) = Some item
      /\ In item contents
      /\ is_file item = true
      /\ get_random_file_link_from_subdir w randbelow repo_url subdir_path
         = (Some (html_url item),
            [Get ("https://api.github.com/repos/" ^ o ^ "/" ^ rp
                  ^ "/contents/" ^ subdir_path);
             RandBelow (List.length (files_in contents));
             Print ("Random file selected: " ^ name item);
             Print ("File URL: " ^ html_url item)]).
Proof.
  unfold get_random_file_link_from_subdir.
  destruct (parse_repo_url repo_url) as [[[o rp]|] tr0] eqn:Hp; [|now left].
  apply parse_repo_url_events in Hp as Htr. subst tr0.
  destruct (json_at w _) as [contents|e] eqn:J; [|now left].
  rewrite files_only_spec. cbn [app].
  destruct (report_link_result
              randbelow ("No files found in the subdirectory: " ^ subdir_path)
              (files_in contents)) as [Hn|(item & N & Hr)].
  - left. destruct (report_link randbelow _ (files_in contents)).
    cbn [fst] in *. exact Hn.
  - right. rewrite Hr. exists o, rp, contents, item.
    apply nth_error_In in N as Hin. apply filter_In in Hin as [Hin F].
    repeat split; auto.
Qed.

(** ** The URL Parser *)

Lemma split_segments_free (sep : ascii) (s : string) :
  Forall (fun seg => PyStr.contains sep seg = false) (PyStr.split sep s).
Proof.
  induction s as [|c r IH]; cbn [PyStr.split].
  - repeat constructor.
  - destruct (Ascii.eqb c sep) eqn:E.
    + constructor; [reflexivity|exact IH].
    + destruct (PyStr.split sep r) as [|h t]; inversion IH; subst;
        constructor; auto; cbn [PyStr.contains]; rewrite E; auto.
Qed.

(** X7.  When the URL Parser succeeds it prints nothing, the owner is not
    empty, and neither the owner nor the repository name contains a slash:
    each takes exactly one segment of the request address built from
    them. *)
Theorem parse_repo_url_parts
        (repo_url owner repo : string) (tr : list event)
        (H : parse_repo_url repo_url = (Some (owner, repo), tr)) :
  tr = []
  /\ owner <> ""
  /\ PyStr.contains PyStr.slash owner = false
  /\ PyStr.contains PyStr.slash repo = false.
Proof.
  apply parse_repo_url_events in H as Htr. subst tr. split; [reflexivity|].
  unfold parse_repo_url, path_parts in H.
  pose proof (split_segments_free PyStr.slash
                                  (PyStr.strip (UrlParse.path repo_url))) as Hfree.
  destruct (strip_split_cases (UrlParse.path repo_url))
    as [(x & Hx & _)|(c & h & b & rest & tail & Hx & _)];
    rewrite Hx in *; cbn in H; inversion H; subst.
  inversion Hfree as [|? ? Ho Hrest]; subst.
  inversion Hrest as [|? ? Hr _]; subst.
  repeat split; auto. discriminate.
Qed.

Lemma parse_repo_url_parts_witness :
  "alice" <> ""
  /\ PyStr.contains PyStr.slash "alice" = false
  /\ PyStr.contains PyStr.slash "proj" = false.
Proof.
  apply (parse_repo_url_parts "https://host/alice/proj/tree/main" "alice" "proj" []).
  reflexivity.
Defined.

(** ** Listings that hold files only *)

Lemma filter_all {A : Type} (p : A -> bool) (l : list A) :
  forallb p l = true -> filter p l = l.
Proof.
  induction l as [|x l IH]; [reflexivity|]. cbn. intros H.
  apply andb_true_iff in H as [Hx Hl]. now rewrite Hx, IH.
Qed.

Lemma dirs_in_files (contents : list Item) :
  forallb is_file contents = true -> dirs_in contents = [].
Proof.
  unfold dirs_in. induction contents as [|x l IH]; [reflexivity|]. cbn.
  intros H. apply andb_true_iff in H as [Hx Hl].
  now rewrite (file_not_dir x Hx), IH.
Qed.

(** X8.  When the first listing holds entries of type file only, the
    bounded walker makes that one request and returns the listing as it
    came: every entry once, in the order of the answer. *)
Theorem discover_files_only
        (w : remote) (api_url : string) (contents : list Item)
        (J : json_at w api_url = Ok contents)
        (Hfiles : forallb is_file contents = true) :
  discover w api_url = (Ok contents, [Get api_url]).
Proof.
  unfold discover. rewrite J, classify_spec. cbn [app].
  unfold files_in. rewrite (filter_all _ _ Hfiles), (dirs_in_files _ Hfiles).
  reflexivity.
Qed.

Lemma discover_files_only_witness :
  discover MoreSamples.mixed (Sample.api ^ "/docs")
  = (Ok [Sample.file_item "a.md" "docs/a.md"; Sample.file_item "b.md" "docs/b.md"],
     [Get (Sample.api ^ "/docs")]).
Proof.
  apply (discover_files_only MoreSamples.mixed (Sample.api ^ "/docs"));
    reflexivity.
Defined.

Lemma for_items_files
      (recurse : string -> list Row -> option (bool * list Row * list event))
      (p : string) (contents : list Item) :
  forallb is_file contents = true ->
  forall fs,
    for_items recurse p contents fs = Some (fs ++ map (row_of p) contents, []).
Proof.
  induction contents as [|x l IH]; intros H fs.
  - simpl. now rewrite app_nil_r.
  - cbn in H. apply andb_true_iff in H as [Hx Hl].
    cbn [for_items]. fold (is_file x). rewrite Hx, (IH Hl).
    cbn [map]. now rewrite <- app_assoc.
Qed.

(** X9.  On a directory whose listing holds files only, one call of the
    export walker, with any fuel left, makes one request and appends one
    row per entry, in listing order, named by the directory path, a slash
    and the entry's name. *)
Theorem get_contents_recursive_files_only
        (w : remote) (username repo_name dir_path : string) (fuel : nat)
        (all_files : list Row) (contents : list Item)
        (J : json_at w (export_api_url username repo_name dir_path) = Ok contents)
        (Hfiles : forallb is_file contents = true) :
  get_contents_recursive w (S fuel) username repo_name dir_path all_files
  = Some (true,
          all_files
          ++ map (fun item => mkRow (dir_path ^ "/" ^ name item) (html_url item))
                 contents,
          [Get (export_api_url username repo_name dir_path)]).
Proof.
  cbn [get_contents_recursive]. rewrite J.
  rewrite (for_items_files _ dir_path contents Hfiles). reflexivity.
Qed.

Lemma get_contents_recursive_files_only_witness :
  get_contents_recursive MoreSamples.mixed 1 "alice" "proj" "docs" []
  = Some (true,
          [mkRow "docs/a.md" "https://github.com/alice/proj/blob/main/docs/a.md";
           mkRow "docs/b.md" "https://github.com/alice/proj/blob/main/docs/b.md"],
          [Get "https://api.github.com/repos/alice/proj/contents/docs"]).
Proof.
  apply (get_contents_recursive_files_only
           MoreSamples.mixed "alice" "proj" "docs" 0 []
           [Sample.file_item "a.md" "docs/a.md";
            Sample.file_item "b.md" "docs/b.md"]);
    reflexivity.
Defined.

(** ** The exporter's effects *)

Lemma no_fs_no_open (tr : list event) :
  existsb is_fs_event tr = false -> filter is_open tr = [].
Proof.
  induction tr as [|e tr IH]; [reflexivity|]. cbn. intros H.
  apply orb_false_iff in H as [He Ht]. rewrite (IH Ht).
  now destruct e.
Qed.

Lemma write_csv_shape (output_csv : string) (all_files : list Row) :
  requests (write_csv output_csv all_files) = []
  /\ filter is_open (write_csv output_csv all_files) = [OpenW output_csv].
Proof.
  unfold write_csv.
  set (ws := map (fun file => FWrite output_csv (Csv.writerow (dict_row file)))
                 all_files).
  assert (H : requests ws = [] /\ filter is_open ws = []).
  { unfold ws. clear ws. induction all_files as [|f l [IH1 IH2]];
      [split; reflexivity|]. cbn. split; assumption. }
  destruct H as [H1 H2]. cbn [requests filter is_open].
  rewrite requests_app, filter_app, H1, H2. split; reflexivity.
Qed.

(** X10.  Whenever the exporter returns, it returns [True] exactly when
    the output file has been written; the file is opened at most once, and
    only after the last request of the walk: no request follows a
    filesystem effect. *)
Theorem get_files_from_subdir_outcome
        (w : remote) (fuel : nat) (repo_url subdir_path output_csv : string)
        (b : bool) (tr : list event)
        (H : get_files_from_subdir w fuel repo_url subdir_path output_csv
             = Some (b, tr)) :
  (b = true <-> exists text, file_text output_csv tr None = Some text)
  /\ filter is_open tr = (if b then [OpenW output_csv] else [])
  /\ exists pre post,
      tr = pre ++ post
      /\ existsb is_fs_event pre = false
      /\ requests post = [].
Proof.
  unfold get_files_from_subdir in H.
  assert (Hfalse : forall t,
             existsb is_fs_event t = false ->
             (false = true <-> exists text, file_text output_csv t None = Some text)
             /\ filter is_open t = []
             /\ exists pre post,
                 t = pre ++ post /\ existsb is_fs_event pre = false
                 /\ requests post = []).
  { intros t Ht. split; [|split].
    - rewrite (file_text_no_fs _ _ _ Ht). split; [discriminate|].
      intros (text & E). discriminate.
    - now apply no_fs_no_open.
    - exists t, []. rewrite app_nil_r. auto. }
  destruct (parse_repo_url repo_url) as [[[u r]|] tr0] eqn:Hp.
  - apply parse_repo_url_events in Hp as Htr. subst tr0.
    destruct (get_contents_recursive w fuel u r subdir_path [])
      as [[[ok fs] t0]|] eqn:Hrun; [|discriminate].
    apply get_contents_recursive_ok in Hrun as (new & _ & (_ & _ & _ & Hfs)).
    destruct fs as [|f fs]; inversion H; subst; clear H; cbn [app].
    + apply Hfalse. now rewrite existsb_fs_app, Hfs.
    + destruct (write_csv_shape output_csv (f :: fs)) as [Hr Ho].
      split; [|split].
      * split; [intros _|reflexivity].
        rewrite file_text_app, write_csv_text. eauto.
      * now rewrite filter_app, (no_fs_no_open _ Hfs), Ho.
      * exists t0, (write_csv output_csv (f :: fs)). auto.
  - inversion H; subst. apply Hfalse.
    unfold parse_repo_url in Hp.
    destruct (Nat.ltb (List.length (path_parts repo_url)) 2);
      inversion Hp; reflexivity.
Qed.

Lemma get_files_from_subdir_outcome_witness :
  exists tr,
    get_files_from_subdir MoreSamples.mixed 2 Sample.repo_url "docs" "out.csv"
    = Some (true, tr)
    /\ filter is_open tr = [OpenW "out.csv"].
Proof.
  eexists. split; [vm_compute; reflexivity|].
  apply (get_files_from_subdir_outcome
           MoreSamples.mixed 2 Sample.repo_url "docs" "out.csv" true).
  vm_compute. reflexivity.
Defined.

(** ** Requests and the URL Parser *)

Lemma fetch_random_file_first_request
      (w : remote) (randbelow : nat -> nat) (repo_url o rp : string) :
  parse_repo_url repo_url = (Some (o, rp), []) ->
  exists rest,
    requests (snd (fetch_random_file w randbelow repo_url))
    = save_api_url o rp :: rest.
Proof.
  intros Hp. unfold fetch_random_file. rewrite Hp.
  destruct (discover_spec w (save_api_url o rp)) as (_ & Hr & _).
  destruct (discover w (save_api_url o rp)) as [[fs|e] tr]; cbn [snd] in Hr.
  - destruct fs as [|f fs].
    + cbn [app snd]. rewrite requests_app, Hr. cbn. eauto.
    + destruct (random_choice randbelow (f :: fs)) as [x|e].
      * destruct (text_at w (download_url x));
          cbn [app snd]; rewrite requests_app, Hr; cbn; eauto.
      * cbn [app snd]. rewrite requests_app, Hr. cbn. eauto.
  - cbn [app snd]. rewrite requests_app, Hr. cbn. eauto.
Qed.

Lemma parse_repo_url_cases (repo_url : string) :
  parse_repo_url repo_url
  = (None, [Print ("Invalid GitHub URL format: " ^ repo_url)])
  \/ exists o rp, parse_repo_url repo_url = (Some (o, rp), []).
Proof.
  unfold parse_repo_url.
  destruct (Nat.ltb (List.length (path_parts repo_url)) 2); [now left|].
  right. eauto.
Qed.

(** X11.  A flow contacts the remote exactly when the URL Parser accepts
    the repository URL: after the diagnostic no request is made, and after
    a successful parse the first listing request is always made.  This
    holds for the three random flows and for every return of the
    exporter. *)
Theorem requests_iff_url_accepted
        (w : remote) (randbelow : nat -> nat) (fuel : nat)
        (repo_url subdir_path output_csv : string) (b : bool) (tr : list event)
        (H : get_files_from_subdir w fuel repo_url subdir_path output_csv
             = Some (b, tr)) :
  (requests (snd (get_random_file_link w randbelow repo_url)) = []
   <-> fst (parse_repo_url repo_url) = None)
  /\ (requests (snd (fetch_random_file w randbelow repo_url)) = []
      <-> fst (parse_repo_url repo_url) = None)
  /\ (requests (snd (get_random_file_link_from_subdir w randbelow repo_url
                                                      subdir_path)) = []
      <-> fst (parse_repo_url repo_url) = None)
  /\ (requests tr = [] <-> fst (parse_repo_url repo_url) = None).
Proof.
  destruct (parse_repo_url_cases repo_url) as [Hp|(o & rp & Hp)].
  - assert (Hl : requests (snd (get_random_file_link w randbelow repo_url)) = [])
      by (unfold get_random_file_link; now rewrite Hp).
    assert (Hf : requests (snd (fetch_random_file w randbelow repo_url)) = [])
      by (unfold fetch_random_file; now rewrite Hp).
    assert (Hs : requests (snd (get_random_file_link_from_subdir
                                  w randbelow repo_url subdir_path)) = [])
      by (unfold get_random_file_link_from_subdir; now rewrite Hp).
    unfold get_files_from_subdir in H. rewrite Hp in *. inversion H; subst.
    cbn [fst]. repeat split; auto.
  - rewrite Hp. cbn [fst]. split; [|split; [|split]].
    + destruct (get_random_file_link_trace w randbelow repo_url) as [Hr _].
      cbv zeta in Hr. rewrite Hr, Hp. cbn [fst].
      destruct (discover_spec w (link_api_url o rp)) as (_ & -> & _).
      split; discriminate.
    + destruct (fetch_random_file_first_request w randbelow repo_url o rp Hp)
        as (rest & ->).
      split; discriminate.
    + unfold get_random_file_link_from_subdir. rewrite Hp. cbn [app].
      destruct (json_at w _) as [c|e].
      * destruct (report_link randbelow _ (files_only c [])) as [r t].
        cbn. split; discriminate.
      * cbn. split; discriminate.
    + unfold get_files_from_subdir in H. rewrite Hp in H.
      destruct (get_contents_recursive w fuel o rp subdir_path [])
        as [[[ok fs] t0]|] eqn:Hrun; [|discriminate].
      apply get_contents_recursive_ok in Hrun as (new & _ & (_ & W & _)).
      assert (Hin : In (export_api_url o rp subdir_path) (requests t0)).
      { apply W. exists subdir_path, 0. split; [constructor|reflexivity]. }
      assert (Hne : requests tr <> []).
      { destruct fs; inversion H; subst; cbn [app]; rewrite requests_app;
          intros E; apply app_eq_nil in E as [E _]; rewrite E in Hin;
          destruct Hin. }
      split; [intros E; contradiction|discriminate].
Qed.

Lemma requests_iff_url_accepted_witness :
  requests (snd (get_random_file_link Sample.nothing (drawing 0) "https://host"))
  = []
  <-> fst (parse_repo_url "https://host") = None.
Proof.
  apply (requests_iff_url_accepted
           Sample.nothing (drawing 0) 0 "https://host" "docs" "out.csv" false
           [Print "Invalid GitHub URL format: https://host"]).
  reflexivity.
Defined.

(** ** Addresses of the documented form *)

Lemma forallb_str_app (p : ascii -> bool) (a b : string) :
  PyStr.forallb_str p (a ^ b) = PyStr.forallb_str p a && PyStr.forallb_str p b.
Proof.
  induction a as [|c a IH]; [reflexivity|]. cbn. now rewrite IH, andb_assoc.
Qed.

Lemma forallb_str_impl (p q : ascii -> bool) (s : string) :
  (forall c, p c = true -> q c = true) ->
  PyStr.forallb_str p s = true -> PyStr.forallb_str q s = true.
Proof.
  intros Hpq. induction s as [|c s IH]; [reflexivity|]. cbn. intros H.
  apply andb_true_iff in H as [Hc Hs]. now rewrite (Hpq c Hc), IH.
Qed.

Lemma break_at_none (p : ascii -> bool) (s : string) :
  PyStr.forallb_str (fun c => negb (p c)) s = true ->
  PyStr.break_at p s = (s, "").
Proof.
  induction s as [|c s IH]; [reflexivity|]. cbn. intros H.
  apply andb_true_iff in H as [Hc Hs]. apply negb_true_iff in Hc.
  now rewrite Hc, IH.
Qed.

Lemma split_params_none (s : string) :
  PyStr.forallb_str (fun c => negb (Ascii.eqb c ";"%char)) s = true ->
  UrlParse.split_params s = s.
Proof.
  induction s as [|c s IH]; [reflexivity|]. cbn. intros H.
  apply andb_true_iff in H as [Hc Hs]. apply negb_true_iff in Hc.
  now rewrite Hc, IH.
Qed.

Lemma split_free (s : string) :
  PyStr.contains PyStr.slash s = false -> PyStr.split PyStr.slash s = [s].
Proof.
  induction s as [|c s IH]; [reflexivity|]. cbn [PyStr.contains PyStr.split].
  intros H. apply orb_false_iff in H as [Hc Hs]. now rewrite Hc, IH.
Qed.

Lemma split_free_prefix (s rest : string) :
  PyStr.contains PyStr.slash s = false ->
  PyStr.split PyStr.slash (s ^ String PyStr.slash rest)
  = s :: PyStr.split PyStr.slash rest.
Proof.
  induction s as [|c s IH].
  - intros _. cbn. reflexivity.
  - cbn [PyStr.contains append PyStr.split]. intros H.
    apply orb_false_iff in H as [Hc Hs]. now rewrite Hc, IH.
Qed.

Lemma free_of_marks (s : string) :
  free_of url_marks s = true ->
  PyStr.contains PyStr.slash s = false
  /\ PyStr.forallb_str (fun c => negb (Ascii.eqb "#"%char c)) s = true
  /\ PyStr.forallb_str (fun c => negb (Ascii.eqb "?"%char c)) s = true
  /\ PyStr.forallb_str (fun c => negb (Ascii.eqb c ";"%char)) s = true.
Proof.
  unfold free_of. induction s as [|c s IH]; [repeat split|].
  cbn [PyStr.forallb_str PyStr.contains]. intros H.
  apply andb_true_iff in H as [Hc Hs]. destruct (IH Hs) as (I1 & I2 & I3 & I4).
  apply negb_true_iff in Hc. unfold url_marks in Hc. cbn [PyStr.contains] in Hc.
  apply orb_false_iff in Hc as [C1 Hc]. apply orb_false_iff in Hc as [C2 Hc].
  apply orb_false_iff in Hc as [C3 Hc]. apply orb_false_iff in Hc as [C4 _].
  rewrite I1, I2, I3, I4. unfold PyStr.slash.
  rewrite (Ascii.eqb_sym c "/"), C1, C2, C3, (Ascii.eqb_sym c ";"), C4.
  repeat split.
Qed.

Lemma free_of_cuts (s : string) :
  free_of "?#;" s = true ->
  PyStr.forallb_str (fun c => negb (Ascii.eqb "#"%char c)) s = true
  /\ PyStr.forallb_str (fun c => negb (Ascii.eqb "?"%char c)) s = true
  /\ PyStr.forallb_str (fun c => negb (Ascii.eqb c ";"%char)) s = true.
Proof.
  unfold free_of. induction s as [|c s IH]; [repeat split|].
  cbn [PyStr.forallb_str]. intros H.
  apply andb_true_iff in H as [Hc Hs]. destruct (IH Hs) as (I2 & I3 & I4).
  apply negb_true_iff in Hc. cbn [PyStr.contains] in Hc.
  apply orb_false_iff in Hc as [C2 Hc]. apply orb_false_iff in Hc as [C3 Hc].
  apply orb_false_iff in Hc as [C4 _].
  rewrite I2, I3, I4, C2, C3, (Ascii.eqb_sym c ";"), C4.
  repeat split.
Qed.

(** The path component of an address of the documented form. *)
Lemma github_url_path (owner repo suffix : string) :
  free_of url_marks owner = true ->
  free_of url_marks repo = true ->
  free_of "?#;" suffix = true ->
  UrlParse.path (github_url owner repo suffix)
  = String "/" (owner ^ "/" ^ repo ^ suffix).
Proof.
  intros Ho Hr Hs.
  destruct (free_of_marks owner Ho) as (_ & O2 & O3 & O4).
  destruct (free_of_marks repo Hr) as (_ & R2 & R3 & R4).
  destruct (free_of_cuts suffix Hs) as (S2 & S3 & S4).
  unfold github_url, UrlParse.path.
  change (UrlParse.split_scheme ("https://github.com/" ^ owner ^ "/" ^ repo ^ suffix))
    with ("https", "//github.com/" ^ owner ^ "/" ^ repo ^ suffix).
  cbv iota beta.
  change (UrlParse.split_netloc ("//github.com/" ^ owner ^ "/" ^ repo ^ suffix))
    with ("github.com", String "/" (owner ^ "/" ^ repo ^ suffix)).
  cbv iota beta.
  set (p := String "/" (owner ^ "/" ^ repo ^ suffix)).
  assert (P2 : PyStr.forallb_str (fun c => negb (Ascii.eqb "#"%char c)) p = true).
  { unfold p. cbn [PyStr.forallb_str]. rewrite !forallb_str_app.
    cbn [PyStr.forallb_str]. now rewrite O2, R2, S2. }
  assert (P3 : PyStr.forallb_str (fun c => negb (Ascii.eqb "?"%char c)) p = true).
  { unfold p. cbn [PyStr.forallb_str]. rewrite !forallb_str_app.
    cbn [PyStr.forallb_str]. now rewrite O3, R3, S3. }
  assert (P4 : PyStr.forallb_str (fun c => negb (Ascii.eqb c ";"%char)) p = true).
  { unfold p. cbn [PyStr.forallb_str]. rewrite !forallb_str_app.
    cbn [PyStr.forallb_str]. now rewrite O4, R4, S4. }
  rewrite (break_at_none _ p P2). cbn [fst].
  rewrite (break_at_none _ p P3). cbn [fst].
  change (existsb (String.eqb "https") UrlParse.uses_params) with true.
  cbv iota. apply split_params_none. exact P4.
Qed.



(** ** The bound on the recursion of the export walker *)

Lemma for_items_more
      (rec1 rec2 : string -> list Row -> option (bool * list Row * list event))
      (p : string) :
  (forall q fs res, rec1 q fs = Some res -> rec2 q fs = Some res) ->
  forall items fs res,
    for_items rec1 p items fs = Some res -> for_items rec2 p items fs = Some res.
Proof.
  intros Hrec. induction items as [|item rest IH]; intros fs res H;
    [exact H|].
  cbn [for_items] in *.
  destruct (type_ item =? "file"); [now apply IH|].
  destruct (type_ item =? "dir"); [|now apply IH].
  destruct (rec1 (subdirectory_path p item) fs) as [[[ok1 fs1] t1]|] eqn:R1;
    [|discriminate].
  rewrite (Hrec _ _ _ R1).
  destruct (for_items rec1 p rest fs1) as [[fs2 t2]|] eqn:R2; [|discriminate].
  now rewrite (IH _ _ R2).
Qed.

Lemma get_contents_recursive_more (w : remote) (username repo_name : string) :
  forall fuel fuel' p fs res,
    fuel <= fuel' ->
    get_contents_recursive w fuel username repo_name p fs = Some res ->
    get_contents_recursive w fuel' username repo_name p fs = Some res.
Proof.
  induction fuel as [|fuel IH]; intros fuel' p fs res Hle H; [discriminate|].
  destruct fuel' as [|fuel']; [lia|].
  cbn [get_contents_recursive] in *.
  destruct (json_at w (export_api_url username repo_name p)) as [c|e];
    [|exact H].
  destruct (for_items (get_contents_recursive w fuel username repo_name) p c fs)
    as [[fs1 t1]|] eqn:R; [|discriminate].
  assert (Hrec : forall q fs0 res0,
             get_contents_recursive w fuel username repo_name q fs0 = Some res0 ->
             get_contents_recursive w fuel' username repo_name q fs0 = Some res0)
    by (intros q fs0 res0; apply IH; lia).
  now rewrite (for_items_more _ _ p Hrec c fs (fs1, t1) R).
Qed.



(** ** Entries that are neither files nor directories *)

Section OnlyKnownFacts.
Variable w : remote.

Lemma known_file (item : Item) : is_file item = true -> known item = true.
Proof. unfold known. now intros ->. Qed.

Lemma known_dir (item : Item) : is_dir item = true -> known item = true.
Proof. unfold known. intros ->. apply orb_true_r. Qed.

Lemma classify_known (contents : list Item) (fs : list Item) (ds : list string) :
  classify (filter known contents) fs ds = classify contents fs ds.
Proof.
  rewrite !classify_spec. unfold files_in, dirs_in.
  now rewrite (filter_absorb is_file known contents known_file),
    (filter_absorb is_dir known contents known_dir).
Qed.

Lemma visit_directories_known (api_url : string) (dirs : list string) :
  forall fs nd,
    visit_directories (only_known w) api_url dirs fs nd
    = visit_directories w api_url dirs fs nd.
Proof.
  induction dirs as [|d rest IH]; intros fs nd; [reflexivity|].
  cbn [visit_directories only_known json_at].
  destruct (json_at w (api_url ^ "/" ^ d)) as [c|e].
  - rewrite classify_known. destruct (classify c fs nd) as [f1 n1].
    now rewrite IH.
  - now rewrite IH.
Qed.

Lemma descend_known (api_url : string) (n : nat) :
  forall dirs fs,
    descend (only_known w) n api_url dirs fs = descend w n api_url dirs fs.
Proof.
  induction n as [|k IH]; intros dirs fs; [reflexivity|].
  destruct dirs as [|d rest]; [reflexivity|]. cbn [descend].
  rewrite visit_directories_known.
  destruct (visit_directories w api_url (d :: rest) fs []) as [[f1 n1] t1].
  now rewrite IH.
Qed.

Lemma discover_known (api_url : string) :
  discover (only_known w) api_url = discover w api_url.
Proof.
  unfold discover. cbn [only_known json_at].
  destruct (json_at w api_url) as [c|e]; [|reflexivity].
  rewrite classify_known. destruct (classify c [] []) as [a d].
  now rewrite descend_known.
Qed.

Lemma files_only_known (contents : list Item) (fs : list Item) :
  files_only (filter known contents) fs = files_only contents fs.
Proof.
  rewrite !files_only_spec. unfold files_in.
  now rewrite (filter_absorb is_file known contents known_file).
Qed.

Lemma for_items_known
      (rec1 rec2 : string -> list Row -> option (bool * list Row * list event))
      (p : string) :
  (forall q fs, rec1 q fs = rec2 q fs) ->
  forall contents fs,
    for_items rec1 p (filter known contents) fs = for_items rec2 p contents fs.
Proof.
  intros Hrec. induction contents as [|item rest IH]; intros fs; [reflexivity|].
  cbn [filter for_items]. unfold known at 1.
  fold (is_file item). fold (is_dir item).
  destruct (is_file item) eqn:F.
  - cbn [orb for_items]. fold (is_file item). rewrite F. apply IH.
  - destruct (is_dir item) eqn:D.
    + cbn [orb for_items]. fold (is_file item). fold (is_dir item).
      rewrite F, D, Hrec.
      destruct (rec2 (subdirectory_path p item) fs) as [[[ok1 fs1] t1]|];
        [|reflexivity].
      now rewrite IH.
    + cbn [orb]. apply IH.
Qed.

Lemma get_contents_recursive_known (username repo_name : string) (fuel : nat) :
  forall p fs,
    get_contents_recursive (only_known w) fuel username repo_name p fs
    = get_contents_recursive w fuel username repo_name p fs.
Proof.
  induction fuel as [|fuel IH]; intros p fs; [reflexivity|].
  cbn [get_contents_recursive only_known json_at].
  destruct (json_at w (export_api_url username repo_name p)) as [c|e];
    [|reflexivity].
  now rewrite (for_items_known _ (get_contents_recursive w fuel username repo_name)
                               p IH).
Qed.

End OnlyKnownFacts.

(** X14.  Entries whose type is neither file nor dir (symbolic links,
    submodules) leave no trace: each of the four flows returns the same
    value and performs the same effects, in the same order, on a remote
    and on that remote with such entries taken out of every listing. *)
Theorem other_entries_are_ignored
        (w : remote) (randbelow : nat -> nat) (fuel : nat)
        (repo_url subdir_path output_csv : string) :
  get_random_file_link (only_known w) randbelow repo_url
  = get_random_file_link w randbelow repo_url
  /\ fetch_random_file (only_known w) randbelow repo_url
     = fetch_random_file w randbelow repo_url
  /\ get_random_file_link_from_subdir (only_known w) randbelow repo_url subdir_path
     = get_random_file_link_from_subdir w randbelow repo_url subdir_path
  /\ get_files_from_subdir (only_known w) fuel repo_url subdir_path output_csv
     = get_files_from_subdir w fuel repo_url subdir_path output_csv.
Proof.
  split; [|split; [|split]].
  - unfold get_random_file_link.
    destruct (parse_repo_url repo_url) as [[[o rp]|] tr0]; [|reflexivity].
    now rewrite discover_known.
  - unfold fetch_random_file.
    destruct (parse_repo_url repo_url) as [[[o rp]|] tr0]; [|reflexivity].
    now rewrite discover_known.
  - unfold get_random_file_link_from_subdir.
    destruct (parse_repo_url repo_url) as [[[o rp]|] tr0]; [|reflexivity].
    cbn [only_known json_at].
    destruct (json_at w _) as [c|e]; [|reflexivity].
    now rewrite files_only_known.
  - unfold get_files_from_subdir.
    destruct (parse_repo_url repo_url) as [[[o rp]|] tr0]; [|reflexivity].
    now rewrite get_contents_recursive_known.
Qed.

(** ** The exporter's count and the addresses requested *)

(** X15.  When the exporter succeeds, the count in its last line is the
    number of data records a reader finds in the output file after the
    header, and it is not zero. *)
Theorem export_count_matches_file
        (w : remote) (fuel : nat) (repo_url subdir_path output_csv : string)
        (tr : list event)
        (H : get_files_from_subdir w fuel repo_url subdir_path output_csv
             = Some (true, tr)) :
  exists n text,
    0 < n
    /\ file_text output_csv tr None = Some text
    /\ List.length (Csv.read text) = S n
    /\ last tr (Print "")
       = Print ("Successfully wrote " ^ decimal n ^ " files to " ^ output_csv).
Proof.
  unfold get_files_from_subdir in H.
  destruct (parse_repo_url repo_url) as [[[u r]|] tr0] eqn:Hp; [|inversion H].
  apply parse_repo_url_events in Hp as Htr. subst tr0.
  destruct (get_contents_recursive w fuel u r subdir_path [])
    as [[[ok fs] t0]|] eqn:Hrun; [|discriminate].
  apply get_contents_recursive_ok in Hrun as (new & _ & (_ & _ & _ & Hfs)).
  destruct fs as [|f fs]; inversion H; subst; clear H.
  exists (List.length (f :: fs)),
    (Csv.csv_text (fieldnames :: map dict_row (f :: fs))).
  split; [cbn; lia|]. split; [|split].
  - cbn [app]. rewrite file_text_app, (file_text_no_fs _ _ _ Hfs).
    apply write_csv_text.
  - rewrite read_csv_text. cbn [List.length]. now rewrite length_map.
  - cbn [app]. unfold write_csv.
    change (t0 ++ OpenW output_csv :: FWrite output_csv (Csv.writerow fieldnames)
               :: ?l ++ ?e)
      with (t0 ++ (OpenW output_csv :: FWrite output_csv (Csv.writerow fieldnames)
                         :: l) ++ e).
    rewrite app_assoc. apply last_last.
Qed.

Lemma export_count_matches_file_witness :
  exists tr n text,
    get_files_from_subdir MoreSamples.mixed 2 Sample.repo_url "docs" "out.csv"
    = Some (true, tr)
    /\ 0 < n
    /\ file_text "out.csv" tr None = Some text
    /\ List.length (Csv.read text) = S n
    /\ last tr (Print "")
       = Print ("Successfully wrote " ^ decimal n ^ " files to " ^ "out.csv").
Proof.
  eexists.
  destruct (export_count_matches_file
              MoreSamples.mixed 2 Sample.repo_url "docs" "out.csv" _ eq_refl)
    as (n & text & H).
  exists n, text. split; [reflexivity|exact H].
Defined.

Lemma export_count_sample :
  exists tr,
    get_files_from_subdir MoreSamples.mixed 2 Sample.repo_url "docs" "out.csv"
    = Some (true, tr)
    /\ last tr (Print "") = Print "Successfully wrote 2 files to out.csv".
Proof. eexists. split; vm_compute; reflexivity. Qed.


